(** * Kuromi claw machine: the grab, progression and prize-layout core

    A shallow embedding of the game core of the repository:
    [GameState] (coins, points, streak, combo), [PrizeGenerator]
    (prize placement, overlap resolution, proximity query),
    [ClawController] (movement, grab sequence, drop, emergency stop)
    and the special-conditions check of the main game loop.

    Conventions of the embedding.
    - A JavaScript number is an exact rational ([Q]); counters that only
      ever hold integers (coins, streak, combo, plays, timestamps) are [Z].
      [NaN] is made explicit where the code can produce it.
    - [Math.random()] reads the next value of an explicit stream.  The
      draws of visual effects are not part of the model; the properties
      hold for every stream.
    - [setTimeout] appends to an explicit queue of pending callbacks that
      is part of the state; only callbacks that touch the game core are
      queued (callbacks that merely remove a CSS class or a DOM node are
      left out, like every other DOM effect).
    - Object references to a prize are prize ids into the prize store. *)

From Stdlib Require Import ZArith QArith Qabs Qround Lqa Lia Bool String.
From stdpp Require Import base list.

Local Open Scope Z_scope.

(** ** JavaScript numbers *)

Module JS.

(** The result of an arithmetic expression that may be [NaN]. *)
Inductive number : Type :=
| Num (q : Q)
| NaN.

(** [Math.max] and [Math.min] on two non-NaN arguments. *)
Definition Math_max (a b : Q) : Q := if Qle_bool a b then b else a.
Definition Math_min (a b : Q) : Q := if Qle_bool a b then a else b.

(** [x < y] where [y] may be [NaN]: a comparison with [NaN] is false. *)
Definition lt (x : Q) (y : number) : bool :=
  match y with
  | Num q => negb (Qle_bool q x)
  | NaN => false
  end.

(** [a < b] on non-NaN numbers. *)
Definition Qlt_bool (a b : Q) : bool := negb (Qle_bool b a).

(** The pseudo random source: [Math.random()] returns the value under
    the cursor and advances it. *)
Record RNG : Type := mkRNG { draws : nat -> Q; cursor : nat }.

Definition Math_random (g : RNG) : Q * RNG :=
  (draws g (cursor g), mkRNG (draws g) (S (cursor g))).

(** Every value of the stream lies in [[0, 1)]. *)
Definition unit_interval (r : Q) : Prop := (0 <= r)%Q /\ (r < 1)%Q.
Definition well_formed (g : RNG) : Prop := forall n, unit_interval (draws g n).

(** A stream that repeats one value. *)
Definition constant (r : Q) : RNG := mkRNG (fun _ => r) 0.

End JS.

(** ** Data model *)

Record Position : Type := mkPosition { px : Q; py : Q }.

Record Size : Type := mkSize { width : Q; height : Q }.

(** The keys of [PrizeGenerator.prizeTypes]. *)
Inductive PrizeType : Type := kuromiPlush | yellowCoin | pointToken | purpleBall.

Inductive Rarity : Type := rare | common.

(** ** GameState *)

Module GameState.

(** An entry of [GameState.prizes], pushed by [collectPrize]; [data] is
    the reference (id) of the collected prize. *)
Record Collected : Type := mkCollected {
  c_type : PrizeType; c_data : nat; c_timestamp : Z; c_combo : Z }.

Record t : Type := mk {
  coins : Z;
  points : Q;
  streak : Z;
  totalPlays : Z;
  prizes : list Collected;
  isPlaying : bool;
  clawPosition : Position;
  gameStarted : bool;
  combo : Z;
  lastWinTime : Z }.

(** [settings] *)
Definition startingCoins : Z := 5.
Definition comboTimeout : Z := 5000.
Definition maxStreak : Z := 10.

(** [settings.successRates[prizeType]]: [undefined] for a key that the
    table does not have. *)
Definition successRates (ty : PrizeType) : option Q :=
  match ty with
  | kuromiPlush => Some 0.65%Q
  | yellowCoin => Some 0.80%Q
  | pointToken => Some 0.75%Q
  | purpleBall => None
  end.

(** [settings.pointValues]: a [min]-[max] range or a coin grant. *)
Inductive PointValue : Type :=
| Range (min max : Z)
| Coins (n : Z).

Definition pointValues (ty : PrizeType) : option PointValue :=
  match ty with
  | kuromiPlush => Some (Range 50 100)
  | yellowCoin => Some (Coins 1)
  | pointToken => Some (Range 10 25)
  | purpleBall => None
  end.

(** The state built by the constructor. *)
Definition new : t :=
  mk 5 0 0 0 [] false (mkPosition 50 50) false 0 0.

Definition set_coins (v : Z) (s : t) : t :=
  mk v (points s) (streak s) (totalPlays s) (prizes s) (isPlaying s)
     (clawPosition s) (gameStarted s) (combo s) (lastWinTime s).
Definition set_points (v : Q) (s : t) : t :=
  mk (coins s) v (streak s) (totalPlays s) (prizes s) (isPlaying s)
     (clawPosition s) (gameStarted s) (combo s) (lastWinTime s).
Definition set_streak (v : Z) (s : t) : t :=
  mk (coins s) (points s) v (totalPlays s) (prizes s) (isPlaying s)
     (clawPosition s) (gameStarted s) (combo s) (lastWinTime s).
Definition set_totalPlays (v : Z) (s : t) : t :=
  mk (coins s) (points s) (streak s) v (prizes s) (isPlaying s)
     (clawPosition s) (gameStarted s) (combo s) (lastWinTime s).
Definition set_prizes (v : list Collected) (s : t) : t :=
  mk (coins s) (points s) (streak s) (totalPlays s) v (isPlaying s)
     (clawPosition s) (gameStarted s) (combo s) (lastWinTime s).
Definition set_isPlaying (v : bool) (s : t) : t :=
  mk (coins s) (points s) (streak s) (totalPlays s) (prizes s) v
     (clawPosition s) (gameStarted s) (combo s) (lastWinTime s).
Definition set_clawPosition (v : Position) (s : t) : t :=
  mk (coins s) (points s) (streak s) (totalPlays s) (prizes s) (isPlaying s)
     v (gameStarted s) (combo s) (lastWinTime s).
Definition set_gameStarted (v : bool) (s : t) : t :=
  mk (coins s) (points s) (streak s) (totalPlays s) (prizes s) (isPlaying s)
     (clawPosition s) v (combo s) (lastWinTime s).
Definition set_combo (v : Z) (s : t) : t :=
  mk (coins s) (points s) (streak s) (totalPlays s) (prizes s) (isPlaying s)
     (clawPosition s) (gameStarted s) v (lastWinTime s).
Definition set_lastWinTime (v : Z) (s : t) : t :=
  mk (coins s) (points s) (streak s) (totalPlays s) (prizes s) (isPlaying s)
     (clawPosition s) (gameStarted s) (combo s) v.

(** [addCoins(amount)] *)
Definition addCoins (amount : Z) (s : t) : t :=
  set_coins (coins s + amount) s.

(** [spendCoin()]: the returned flag and the state after the call. *)
Definition spendCoin (s : t) : bool * t :=
  if coins s <=? 0 then (false, s)
  else (true, set_totalPlays (totalPlays s + 1) (set_coins (coins s - 1) s)).

(** [addPoints(amount)] *)
Definition addPoints (amount : Q) (s : t) : t :=
  set_points (points s + amount)%Q s.

(** [Math.floor(Math.random() * (max - min + 1)) + min] *)
Definition baseReward (r : Q) (min max : Z) : Z :=
  Qfloor (r * inject_Z (max - min + 1))%Q + min.

(** [processPrizeReward(prizeType, prizeData)].  [Math.random()] is
    called in the plush and token branches only. *)
Definition processPrizeReward (ty : PrizeType) (g : JS.RNG) (s : t) : t * JS.RNG :=
  match ty, pointValues ty with
  | kuromiPlush, Some (Range min max) =>
      let (r, g') := JS.Math_random g in
      (addPoints (inject_Z (baseReward r min max)
                  * (1 + inject_Z (combo s - 1) * 0.1))%Q s, g')
  | yellowCoin, Some (Coins n) =>
      (addPoints 20 (addCoins n s), g)
  | pointToken, Some (Range min max) =>
      let (r, g') := JS.Math_random g in
      (addPoints (inject_Z (baseReward r min max)
                  * (1 + inject_Z (streak s - 1) * 0.05))%Q s, g')
  | _, _ => (s, g)
  end.

(** [collectPrize(prizeType, prizeData)] with [Date.now()] = [now]. *)
Definition collectPrize (now : Z) (ty : PrizeType) (data : nat)
    (g : JS.RNG) (s : t) : t * JS.RNG :=
  let s1 :=
    if now - lastWinTime s <? comboTimeout
    then set_combo (combo s + 1) s
    else set_combo 1 s in
  let s2 := set_lastWinTime now s1 in
  let s3 := set_streak (streak s2 + 1) s2 in
  let s4 := if maxStreak <? streak s3 then set_streak maxStreak s3 else s3 in
  let s5 := set_prizes (prizes s4 ++ [mkCollected ty data now (combo s4)]) s4 in
  processPrizeReward ty g s5.

(** [missedGrab()] *)
Definition missedGrab (g : JS.RNG) (s : t) : t * JS.RNG :=
  let s1 := set_combo 0 (set_streak 0 s) in
  let (r, g') := JS.Math_random g in
  if JS.Qlt_bool r 0.3 then (addPoints 5 s1, g') else (s1, g').

(** [updateClawPosition(x, y)] *)
Definition updateClawPosition (x y : Q) (s : t) : t :=
  set_clawPosition
    (mkPosition (JS.Math_max 10 (JS.Math_min 90 x))
                (JS.Math_max 10 (JS.Math_min 90 y))) s.

(** [setPlaying(playing)] *)
Definition setPlaying (playing : bool) (s : t) : t :=
  let s1 := set_isPlaying playing s in
  if playing && negb (gameStarted s1) then set_gameStarted true s1 else s1.

(** [canPlay()] *)
Definition canPlay (s : t) : bool := (0 <? coins s) && negb (isPlaying s).

(** [getSuccessRate(prizeType)].  A missing table entry makes
    [baseRate] [undefined]; the sum is then [NaN], and [Math.min] and
    [Math.max] return [NaN] when an argument is [NaN]. *)
Definition getSuccessRate (ty : PrizeType) (s : t) : JS.number :=
  let streakBonus := JS.Math_min (inject_Z (streak s) * 0.02)%Q 0.1%Q in
  let lowCoinPenalty := if coins s <? 2 then 0.05%Q else 0%Q in
  match successRates ty with
  | Some baseRate =>
      JS.Num (JS.Math_max 0.3 (JS.Math_min 0.9
                (baseRate + streakBonus - lowCoinPenalty)%Q))
  | None => JS.NaN
  end.

(** [reset()] *)
Definition reset (s : t) : t :=
  mk startingCoins 0 0 0 [] false (mkPosition 50 50) false 0 0.

(** The operations on the progression state, and the state built by
    the constructor followed by any sequence of them. *)
Inductive Op : Type :=
| OpAddCoins (amount : Z)
| OpSpendCoin
| OpAddPoints (amount : Q)
| OpCollectPrize (now : Z) (ty : PrizeType) (data : nat)
| OpMissedGrab
| OpUpdateClawPosition (x y : Q)
| OpSetPlaying (playing : bool)
| OpReset.

Definition apply (op : Op) (g : JS.RNG) (s : t) : t * JS.RNG :=
  match op with
  | OpAddCoins amount => (addCoins amount s, g)
  | OpSpendCoin => (snd (spendCoin s), g)
  | OpAddPoints amount => (addPoints amount s, g)
  | OpCollectPrize now ty data => collectPrize now ty data g s
  | OpMissedGrab => missedGrab g s
  | OpUpdateClawPosition x y => (updateClawPosition x y s, g)
  | OpSetPlaying playing => (setPlaying playing s, g)
  | OpReset => (reset s, g)
  end.

Inductive reachable : t -> Prop :=
| reachable_new : reachable new
| reachable_apply (s : t) (op : Op) (g : JS.RNG) :
    reachable s -> reachable (fst (apply op g s)).

End GameState.

(** ** PrizeGenerator *)

Module PrizeGenerator.

Record Prize : Type := mkPrize {
  id : nat;
  type : PrizeType;
  position : Position;
  size : Size;
  rarity : Rarity;
  stackable : bool;
  grabbed : bool;
  collected : bool;
  wobble : Q;
  depth : Q }.

Definition set_position (v : Position) (p : Prize) : Prize :=
  mkPrize (id p) (type p) v (size p) (rarity p) (stackable p)
          (grabbed p) (collected p) (wobble p) (depth p).
Definition set_grabbed (v : bool) (p : Prize) : Prize :=
  mkPrize (id p) (type p) (position p) (size p) (rarity p) (stackable p)
          v (collected p) (wobble p) (depth p).
Definition set_collected (v : bool) (p : Prize) : Prize :=
  mkPrize (id p) (type p) (position p) (size p) (rarity p) (stackable p)
          (grabbed p) v (wobble p) (depth p).

(** An entry of [prizeTypes]. *)
Record Config : Type := mkConfig {
  count : nat; cfg_size : Size; cfg_rarity : Rarity; cfg_stackable : bool }.

Definition prizeTypes (ty : PrizeType) : Config :=
  match ty with
  | kuromiPlush => mkConfig 8 (mkSize 45 45) rare true
  | yellowCoin => mkConfig 6 (mkSize 35 35) common false
  | pointToken => mkConfig 12 (mkSize 30 30) common true
  | purpleBall => mkConfig 10 (mkSize 32 32) common true
  end.

(** [Object.entries(this.prizeTypes)]: the keys in insertion order. *)
Definition prizeTypeKeys : list PrizeType :=
  [kuromiPlush; yellowCoin; pointToken; purpleBall].

(** [boundaries] *)
Definition left : Q := 0.
Definition right : Q := 100.
Definition top : Q := 0.
Definition bottom : Q := 85.

(** The generator's own state: the prize store and the id counter. *)
Record t : Type := mk { prizes : list Prize; prizeIdCounter : nat }.

(** [getRandomPosition(size)]; the draw for [x] comes first. *)
Definition margin : Q := 5.

Definition getRandomPosition (sz : Size) (g : JS.RNG) : Position * JS.RNG :=
  let (r1, g1) := JS.Math_random g in
  let (r2, g2) := JS.Math_random g1 in
  (mkPosition
     (margin + r1 * (right - left - width sz / 2 - margin * 2))%Q
     (margin + r2 * (bottom - top - height sz / 2 - margin * 2))%Q,
   g2).

(** [createPrize(type, config)] *)
Definition createPrize (ty : PrizeType) (config : Config) (counter : nat)
    (g : JS.RNG) : Prize * nat * JS.RNG :=
  let (pos, g1) := getRandomPosition (cfg_size config) g in
  let (r3, g2) := JS.Math_random g1 in
  let (r4, g3) := JS.Math_random g2 in
  (mkPrize (S counter) ty pos (cfg_size config) (cfg_rarity config)
           (cfg_stackable config) false false (r3 * 360)%Q (r4 * 10)%Q,
   S counter, g3).

(** [checkOverlap(prize1, prize2)] *)
Definition buffer : Q := 5.

Definition minDistance (p1 p2 : Prize) : Q :=
  ((width (size p1) + width (size p2)) / 2 + buffer)%Q.

Definition checkOverlap (p1 p2 : Prize) : bool :=
  let dx := Qabs (px (position p1) - px (position p2)) in
  let dy := Qabs (py (position p1) - py (position p2)) in
  JS.Qlt_bool dx (minDistance p1 p2) && JS.Qlt_bool dy (minDistance p1 p2).

(** The state threaded through one pass of [resolveOverlaps]: the
    prize array, the [hasOverlap] flag and the random source. *)
Definition PassState : Type := (list Prize * bool * JS.RNG)%type.

(** The body of the inner loop at the index pair [(i, j)]. *)
Definition visit (i j : nat) (st : PassState) : PassState :=
  let '(ps, hasOverlap, g) := st in
  match ps !! i, ps !! j with
  | Some p1, Some p2 =>
      if checkOverlap p1 p2 then
        let (pos, g') := getRandomPosition (size p2) g in
        (<[j := set_position pos p2]> ps, true, g')
      else st
  | _, _ => st
  end.

(** [for (let j = ...; j < length; j++)] with [n] iterations left. *)
Fixpoint inner (i j n : nat) (st : PassState) : PassState :=
  match n with
  | O => st
  | S n' => inner i (S j) n' (visit i j st)
  end.

(** [for (let i = ...; i < length; i++)] with [n] iterations left. *)
Fixpoint outer (len i n : nat) (st : PassState) : PassState :=
  match n with
  | O => st
  | S n' => outer len (S i) n' (inner i (S i) (len - S i) st)
  end.

(** One execution of the body of the [while] loop up to the test of
    [hasOverlap]. *)
Definition pass (ps : list Prize) (g : JS.RNG) : PassState :=
  outer (length ps) 0 (length ps) (ps, false, g).

Definition maxAttempts : nat := 50.

(** [while (attempts < maxAttempts)], with [remaining] standing for
    [maxAttempts - attempts]. *)
Fixpoint loop (remaining attempts : nat) (ps : list Prize) (g : JS.RNG)
    : list Prize * nat * JS.RNG :=
  match remaining with
  | O => (ps, attempts, g)
  | S remaining' =>
      let '(ps', hasOverlap, g') := pass ps g in
      if hasOverlap then loop remaining' (S attempts) ps' g'
      else (ps', attempts, g')
  end.

(** [resolveOverlaps()]: the prize array, the final value of
    [attempts] and the random source after the call. *)
Definition resolveOverlaps (ps : list Prize) (g : JS.RNG)
    : list Prize * nat * JS.RNG :=
  loop maxAttempts 0 ps g.

(** [generatePrizes()] *)
Fixpoint createMany (ty : PrizeType) (n : nat) (st : t) (g : JS.RNG) : t * JS.RNG :=
  match n with
  | O => (st, g)
  | S n' =>
      let '(p, c, g') := createPrize ty (prizeTypes ty) (prizeIdCounter st) g in
      createMany ty n' (mk (prizes st ++ [p]) c) g'
  end.

Fixpoint createAll (tys : list PrizeType) (st : t) (g : JS.RNG) : t * JS.RNG :=
  match tys with
  | [] => (st, g)
  | ty :: tys' =>
      let (st', g') := createMany ty (count (prizeTypes ty)) st g in
      createAll tys' st' g'
  end.

Definition generatePrizes (st : t) (g : JS.RNG) : t * JS.RNG :=
  let (st1, g1) := createAll prizeTypeKeys (mk [] (prizeIdCounter st)) g in
  let '(ps, _, g2) := resolveOverlaps (prizes st1) g1 in
  (mk ps (prizeIdCounter st1), g2).

(** [Math.sqrt(dx^2 + dy^2) <= tolerance] in exact arithmetic: the
    root of a sum of squares is at most [tolerance] exactly when
    [tolerance] is not negative and the sum is at most its square. *)
Definition distance2 (p : Position) (x y : Q) : Q :=
  ((px p - x) * (px p - x) + (py p - y) * (py p - y))%Q.

Definition withinTolerance (p : Position) (x y tolerance : Q) : bool :=
  Qle_bool 0 tolerance && Qle_bool (distance2 p x y) (tolerance * tolerance).

(** The callback given to [find] by [getPrizeAtPosition]. *)
Definition eligible (x y tolerance : Q) (prize : Prize) : bool :=
  if collected prize || grabbed prize then false
  else withinTolerance (position prize) x y tolerance.

(** [getPrizeAtPosition(x, y, tolerance = 15)] *)
Definition defaultTolerance : Q := 15.

Definition getPrizeAtPosition (x y tolerance : Q) (ps : list Prize) : option Prize :=
  List.find (eligible x y tolerance) ps.

End PrizeGenerator.

(** ** The machine: claw controller, game state, prize store, timers *)

(** The scheduled callbacks that touch the game core. *)
Inductive Callback : Type :=
| MoveDone                 (* animateMovement: isMoving = false *)
| AttemptGrab              (* executeGrabSequence, phase 2 *)
| AnimateClawUp            (* executeGrabSequence, phase 3 *)
| ReturnClaw               (* executeGrabSequence, phase 4 *)
| CompleteGrabSequence     (* executeGrabSequence, phase 5 *)
| ResetToHome              (* completeGrabSequence: resetToHome *)
| FinalizeTransport (prize : nat)   (* the prize store's own callback *)
| RestoreSpeed (speed : Q).         (* triggerComboSpecialEffect *)

(** A pending timer: the time at which it is due and its callback. *)
Definition Timer : Type := (Z * Callback)%type.

Module ClawController.

Record t : Type := mk {
  position : Position;
  isMoving : bool;
  isGrabbing : bool;
  grabbedPrize : option nat;
  moveSpeed : Q;
  hasClawElement : bool   (* [this.claw] is not null *) }.

(** Constants set by the constructor and never assigned again. *)
Definition homePosition : Position := mkPosition 50 50.
Definition dropZone : Position := mkPosition 50 70.
Definition moveStep : Q := 8.
Definition grabSequenceTime : Q := 2500.
Definition minX : Q := 15.
Definition maxX : Q := 85.
Definition minY : Q := 15.
Definition maxY : Q := 75.

Definition new (hasClaw : bool) : t :=
  mk (mkPosition 50 50) false false None 500 hasClaw.

Definition set_position (v : Position) (c : t) : t :=
  mk v (isMoving c) (isGrabbing c) (grabbedPrize c) (moveSpeed c) (hasClawElement c).
Definition set_isMoving (v : bool) (c : t) : t :=
  mk (position c) v (isGrabbing c) (grabbedPrize c) (moveSpeed c) (hasClawElement c).
Definition set_isGrabbing (v : bool) (c : t) : t :=
  mk (position c) (isMoving c) v (grabbedPrize c) (moveSpeed c) (hasClawElement c).
Definition set_grabbedPrize (v : option nat) (c : t) : t :=
  mk (position c) (isMoving c) (isGrabbing c) v (moveSpeed c) (hasClawElement c).
Definition set_moveSpeed (v : Q) (c : t) : t :=
  mk (position c) (isMoving c) (isGrabbing c) (grabbedPrize c) v (hasClawElement c).

End ClawController.

Record World : Type := mkWorld {
  gameState : GameState.t;
  prizeGenerator : PrizeGenerator.t;
  claw : ClawController.t;
  timers : list Timer;
  now : Z;
  rng : JS.RNG }.

Definition set_gameState (v : GameState.t) (w : World) : World :=
  mkWorld v (prizeGenerator w) (claw w) (timers w) (now w) (rng w).
Definition set_prizeGenerator (v : PrizeGenerator.t) (w : World) : World :=
  mkWorld (gameState w) v (claw w) (timers w) (now w) (rng w).
Definition set_claw (v : ClawController.t) (w : World) : World :=
  mkWorld (gameState w) (prizeGenerator w) v (timers w) (now w) (rng w).
Definition set_timers (v : list Timer) (w : World) : World :=
  mkWorld (gameState w) (prizeGenerator w) (claw w) v (now w) (rng w).
Definition set_now (v : Z) (w : World) : World :=
  mkWorld (gameState w) (prizeGenerator w) (claw w) (timers w) v (rng w).
Definition set_rng (v : JS.RNG) (w : World) : World :=
  mkWorld (gameState w) (prizeGenerator w) (claw w) (timers w) (now w) v.

(** [setTimeout(cb, delay)]: the delay is truncated to whole
    milliseconds; the timer joins the end of the queue. *)
Definition setTimeout (cb : Callback) (delay : Q) (w : World) : World :=
  set_timers (timers w ++ [(now w + Qfloor delay, cb)]) w.

(** Update of the claw record and of the game state inside the world. *)
Definition on_claw (f : ClawController.t -> ClawController.t) (w : World) : World :=
  set_claw (f (claw w)) w.
Definition on_gameState (f : GameState.t -> GameState.t) (w : World) : World :=
  set_gameState (f (gameState w)) w.

(** *** Methods of [PrizeGenerator] that the controller calls *)

Module PrizeStore.
Import PrizeGenerator.

Definition lookup (i : nat) (ps : list Prize) : option Prize :=
  List.find (fun p => Nat.eqb (id p) i) ps.

Definition update (i : nat) (f : Prize -> Prize) (ps : list Prize) : list Prize :=
  List.map (fun p => if Nat.eqb (id p) i then f p else p) ps.

Definition on_prizes (f : list Prize -> list Prize) (w : World) : World :=
  set_prizeGenerator
    (PrizeGenerator.mk (f (prizes (prizeGenerator w)))
                       (prizeIdCounter (prizeGenerator w))) w.

(** Modelled from the spec: [PrizeGenerator.dropPrize] is called by
    [drop] and [emergencyStop] but is not part of the sources.  The
    spec has the held prize released back into play at its current
    position without awarding points: the transient [grabbed] flag of
    the prize is cleared, nothing else changes. *)
Definition dropPrize (i : nat) (w : World) : World :=
  on_prizes (update i (set_grabbed false)) w.

(** Modelled from the spec: [PrizeGenerator.attemptGrab] is called by
    the controller's [attemptGrab] but is not part of the sources.
    Following the spec's grab resolver: no candidate in reach is a
    failure without a draw; otherwise one draw is compared with the
    effective success probability, and a success marks the prize as
    grabbed and returns its reference.  The candidate is the one
    selected by the repository's [getPrizeAtPosition]. *)
Definition attemptGrab (x y : Q) (w : World) : bool * option nat * World :=
  match getPrizeAtPosition x y defaultTolerance (prizes (prizeGenerator w)) with
  | None => (false, None, w)
  | Some p =>
      let (r, g') := JS.Math_random (rng w) in
      let w1 := set_rng g' w in
      if JS.lt r (GameState.getSuccessRate (type p) (gameState w))
      then (true, Some (id p), on_prizes (update (id p) (set_grabbed true)) w1)
      else (false, None, w1)
  end.

(** Modelled from the spec: [PrizeGenerator.transportPrize] is called
    by [animateClawUp] but is not part of the sources.  The spec has a
    held prize finalized as collected, and progression informed of the
    win, when the return completes; the controller leaves this to the
    prize generator, so the call schedules that finalization for the
    end of the grab sequence (the remaining 40% of its duration). *)
Definition transportPrize (i : nat) (w : World) : World :=
  setTimeout (FinalizeTransport i) (ClawController.grabSequenceTime * 0.4)%Q w.

(** Modelled from the spec: the finalization scheduled by
    [transportPrize].  A prize that was released in the meantime, or
    is unknown or already collected, is left alone. *)
Definition finalizeTransport (i : nat) (w : World) : World :=
  match lookup i (prizes (prizeGenerator w)) with
  | Some p =>
      if grabbed p && negb (collected p) then
        let w1 := on_prizes (update i (fun q => set_grabbed false (set_collected true q))) w in
        let (gs, g') := GameState.collectPrize (now w1) (type p) i (rng w1) (gameState w1) in
        set_rng g' (set_gameState gs w1)
      else w
  | None => w
  end.

End PrizeStore.

(** *** Methods of [ClawController] *)

Import ClawController.

(** The position computed by the [switch] of [move]; a direction that
    matches no case leaves the copy of the current position as it is. *)
Definition newPosition (direction : string) (p : Position) : Position :=
  if String.eqb direction "left" then
    mkPosition (JS.Math_max minX (px p - moveStep)%Q) (py p)
  else if String.eqb direction "right" then
    mkPosition (JS.Math_min maxX (px p + moveStep)%Q) (py p)
  else if String.eqb direction "forward" then
    mkPosition (px p) (JS.Math_min maxY (py p + moveStep)%Q)
  else if String.eqb direction "back" then
    mkPosition (px p) (JS.Math_max minY (py p - moveStep)%Q)
  else p.

(** [a.x === b.x && a.y === b.y] *)
Definition samePosition (a b : Position) : bool :=
  Qeq_bool (px a) (px b) && Qeq_bool (py a) (py b).

(** [animateMovement(newPosition)] *)
Definition animateMovement (p : Position) (w : World) : World :=
  let w1 := on_claw (set_isMoving true) w in
  let w2 := on_claw (set_position p) w1 in
  let w3 := on_gameState (GameState.updateClawPosition (px p) (py p)) w2 in
  setTimeout MoveDone (moveSpeed (claw w3)) w3.

(** The guard shared by [move] and [grab]. *)
Definition busy (w : World) : bool :=
  isMoving (claw w) || isGrabbing (claw w) || negb (GameState.canPlay (gameState w)).

(** [move(direction)] *)
Definition move (direction : string) (w : World) : bool * World :=
  if busy w then (false, w)
  else
    let p := newPosition direction (position (claw w)) in
    if samePosition p (position (claw w)) then (false, w)
    else (true, animateMovement p w).

(** [executeGrabSequence()] *)
Definition executeGrabSequence (w : World) : World :=
  let w1 := setTimeout AttemptGrab (grabSequenceTime * 0.4)%Q w in
  let w2 := setTimeout AnimateClawUp (grabSequenceTime * 0.6)%Q w1 in
  let w3 := setTimeout ReturnClaw (grabSequenceTime * 0.8)%Q w2 in
  setTimeout CompleteGrabSequence grabSequenceTime w3.

(** [grab()] *)
Definition grab (w : World) : bool * World :=
  if busy w then (false, w)
  else
    let (ok, gs) := GameState.spendCoin (gameState w) in
    if negb ok then (false, set_gameState gs w)
    else
      let w1 := set_gameState gs w in
      let w2 := on_claw (set_isGrabbing true) w1 in
      let w3 := on_gameState (GameState.setPlaying true) w2 in
      (true, executeGrabSequence w3).

(** [attemptGrab()] *)
Definition attemptGrab (w : World) : bool * World :=
  let '(success, prize, w1) :=
    PrizeStore.attemptGrab (px (position (claw w))) (py (position (claw w))) w in
  if success then (true, on_claw (set_grabbedPrize prize) w1)
  else (false, w1).

(** [animateClawUp()] *)
Definition animateClawUp (w : World) : World :=
  if negb (hasClawElement (claw w)) then w
  else
    match grabbedPrize (claw w) with
    | Some i => PrizeStore.transportPrize i w
    | None => w
    end.

(** [animateReturn(targetPosition)] *)
Definition animateReturn (target : Position) (w : World) : World :=
  on_claw (set_position target) w.

(** [returnClaw()] *)
Definition returnClaw (w : World) : World :=
  match grabbedPrize (claw w) with
  | Some _ => animateReturn dropZone w
  | None => animateReturn homePosition w
  end.

(** [completeGrabSequence()] *)
Definition completeGrabSequence (w : World) : World :=
  let w1 := on_claw (set_isGrabbing false) w in
  let w2 := on_gameState (GameState.setPlaying false) w1 in
  let w3 :=
    match grabbedPrize (claw w2) with
    | Some _ => on_claw (set_grabbedPrize None) w2
    | None =>
        let (gs, g') := GameState.missedGrab (rng w2) (gameState w2) in
        set_rng g' (set_gameState gs w2)
    end in
  setTimeout ResetToHome 1000 w3.

(** [drop()] *)
Definition drop (w : World) : bool * World :=
  match grabbedPrize (claw w) with
  | None => if negb (isGrabbing (claw w)) then (false, w) else (true, w)
  | Some i =>
      (true, on_claw (set_grabbedPrize None) (PrizeStore.dropPrize i w))
  end.

(** [resetToHome()] *)
Definition resetToHome (w : World) : World :=
  let w1 := on_claw (set_position homePosition) w in
  on_gameState (GameState.updateClawPosition (px homePosition) (py homePosition)) w1.

(** [emergencyStop()] *)
Definition emergencyStop (w : World) : World :=
  let w1 := on_claw (set_isMoving false) w in
  let w2 := on_claw (set_isGrabbing false) w1 in
  let w3 := on_gameState (GameState.setPlaying false) w2 in
  let w4 :=
    match grabbedPrize (claw w3) with
    | Some i => on_claw (set_grabbedPrize None) (PrizeStore.dropPrize i w3)
    | None => w3
    end in
  resetToHome w4.

(** *** The timer queue *)

(** What a callback does when it runs. *)
Definition fire (cb : Callback) (w : World) : World :=
  match cb with
  | MoveDone => on_claw (set_isMoving false) w
  | AttemptGrab => snd (attemptGrab w)
  | AnimateClawUp => animateClawUp w
  | ReturnClaw => returnClaw w
  | CompleteGrabSequence => completeGrabSequence w
  | ResetToHome => resetToHome w
  | FinalizeTransport i => PrizeStore.finalizeTransport i w
  | RestoreSpeed v => on_claw (set_moveSpeed v) w
  end.

(** The timer that runs next: the one due first, and among timers due
    at the same time the one that was set first; with it, the rest of
    the queue in its order. *)
Fixpoint pick (ts : list Timer) : option (Timer * list Timer) :=
  match ts with
  | [] => None
  | t :: ts' =>
      match pick ts' with
      | None => Some (t, [])
      | Some (t', rest) =>
          if fst t <=? fst t' then Some (t, ts') else Some (t', t :: rest)
      end
  end.

(** The event loop runs the next timer: the clock reaches its due
    time, the timer leaves the queue, its callback runs. *)
Definition step (w : World) : option World :=
  match pick (timers w) with
  | None => None
  | Some ((due, cb), rest) =>
      Some (fire cb (set_now (Z.max (now w) due) (set_timers rest w)))
  end.

(** Run at most [n] timers. *)
Fixpoint run (n : nat) (w : World) : World :=
  match n with
  | O => w
  | S n' => match step w with Some w' => run n' w' | None => w end
  end.

(** ** The special-conditions check of the game loop *)

Module KuromiClawMachine.

(** [triggerComboSpecialEffect()]: the speed boost and its timer. *)
Definition triggerComboSpecialEffect (w : World) : World :=
  let originalSpeed := moveSpeed (claw w) in
  let w1 := on_claw (set_moveSpeed (originalSpeed * 0.7)%Q) w in
  setTimeout (RestoreSpeed originalSpeed) 10000 w1.

(** [checkSpecialConditions()].  The devil-mode branch only draws a
    number (its effect is visual); [&&] draws only when the streak
    test holds. *)
Definition checkSpecialConditions (w : World) : World :=
  let w1 :=
    if 5 <=? GameState.streak (gameState w)
    then set_rng (snd (JS.Math_random (rng w))) w
    else w in
  let w2 :=
    if 3 <=? GameState.combo (gameState w1) then
      let (r, g') := JS.Math_random (rng w1) in
      let w1' := set_rng g' w1 in
      if JS.Qlt_bool r 0.1 then triggerComboSpecialEffect w1' else w1'
    else w1 in
  if (GameState.coins (gameState w2) =? 0) && (3 <=? GameState.streak (gameState w2))
  then on_gameState (GameState.addCoins 2) w2
  else w2.

(** [updateGame()] with the controller's own flags. *)
Definition updateGame (isInitialized isPlaying : bool) (w : World) : World :=
  if negb isInitialized || negb isPlaying then w
  else checkSpecialConditions w.

End KuromiClawMachine.


(** ** Further methods of the controller, the game state and the main loop *)

(** [getStats()] of [GameState]: the numeric fields.  The two fields
    formatted by [toFixed] ([successRate], [averagePoints]) are strings
    and are left out. *)
Module Stats.

Record t : Type := mk {
  totalPlays : Z;
  totalPrizes : nat;
  currentStreak : Z;
  highestCombo : Z;
  coinsRemaining : Z;
  totalPoints : Q }.

(** [p.combo || 1]: a combo of 0 is falsy. *)
Definition comboOrOne (e : GameState.Collected) : Z :=
  if GameState.c_combo e =? 0 then 1 else GameState.c_combo e.

(** [Math.max(...values, 0)] *)
Definition maxWithZero (values : list Z) : Z := List.fold_right Z.max 0 values.

Definition getStats (s : GameState.t) : t :=
  mk (GameState.totalPlays s)
     (length (GameState.prizes s))
     (GameState.streak s)
     (maxWithZero (List.map comboOrOne (GameState.prizes s)))
     (GameState.coins s)
     (GameState.points s).

End Stats.

(** [String.prototype.toLowerCase] on the ASCII letters, which is all
    that the names of the keys contain. *)
Definition lowerAscii (c : Ascii.ascii) : Ascii.ascii :=
  let n := Ascii.nat_of_ascii c in
  if (65 <=? n)%nat && (n <=? 90)%nat then Ascii.ascii_of_nat (n + 32) else c.

Fixpoint toLowerCase (s : string) : string :=
  match s with
  | EmptyString => EmptyString
  | String c s' => String (lowerAscii c) (toLowerCase s')
  end.

(** [handleKeyboard(event)] with [event.key] = [key]. *)
Definition handleKeyboard (key : string) (w : World) : World :=
  if isMoving (claw w) || isGrabbing (claw w) then w
  else
    let k := toLowerCase key in
    if String.eqb k "a" || String.eqb k "arrowleft" then snd (move "left" w)
    else if String.eqb k "d" || String.eqb k "arrowright" then snd (move "right" w)
    else if String.eqb k "w" || String.eqb k "arrowup" then snd (move "back" w)
    else if String.eqb k "s" || String.eqb k "arrowdown" then snd (move "forward" w)
    else if String.eqb k " " || String.eqb k "enter" then snd (grab w)
    else if String.eqb k "x" then snd (drop w)
    else w.

(** The body of the interval callback of [autoPlay(duration)];
    [elapsed] stands for [Date.now() - startTime > duration].  The
    flag returned tells whether the interval was cleared.  An index
    outside the array gives [undefined], which like the empty string
    matches no case of [move]. *)
Definition directions : list string := ["left"; "right"; "forward"; "back"]%string.

Definition autoPlayTick (elapsed : bool) (w : World) : bool * World :=
  if elapsed then (true, w)
  else if negb (GameState.canPlay (gameState w))
          || isMoving (claw w) || isGrabbing (claw w) then (false, w)
  else
    let (action, g1) := JS.Math_random (rng w) in
    let w1 := set_rng g1 w in
    if JS.Qlt_bool action 0.6 then
      let (r, g2) := JS.Math_random (rng w1) in
      let w2 := set_rng g2 w1 in
      let randomDir :=
        List.nth (Z.to_nat (Qfloor (r * 4)%Q)) directions ""%string in
      (false, snd (move randomDir w2))
    else if JS.Qlt_bool action 0.9 then (false, snd (grab w1))
    else (false, resetToHome w1).

(** ** SoundManager: volumes and mute *)

Module SoundManager.

(** The part of the sound manager that the volume controls act on:
    the three volumes, the mute flag, the gain of the master node
    (absent when the Web Audio API is not available; the audio
    context and its master node exist together) and the gain that the
    ambient loop was started with (absent when no loop is playing).
    Where the code wraps calls of the Web Audio API in [try], the
    calls are taken to succeed. *)
Record t : Type := mk {
  masterVolume : Q;
  sfxVolume : Q;
  musicVolume : Q;
  isMuted : bool;
  masterGain : option Q;
  ambient : option Q }.

(** The state built by the constructor, with or without an audio
    context. *)
Definition new (hasAudioContext : bool) : t :=
  mk 0.7 0.8 0.3 false (if hasAudioContext then Some 0.7%Q else None) None.

Definition unit_clamp (volume : Q) : Q := JS.Math_max 0 (JS.Math_min 1 volume).

(** [setMasterVolume(volume)] *)
Definition setMasterVolume (volume : Q) (s : t) : t :=
  let v := unit_clamp volume in
  mk v (sfxVolume s) (musicVolume s) (isMuted s)
     (match masterGain s with Some _ => Some v | None => None end)
     (ambient s).

(** [setSFXVolume(volume)] *)
Definition setSFXVolume (volume : Q) (s : t) : t :=
  mk (masterVolume s) (unit_clamp volume) (musicVolume s) (isMuted s)
     (masterGain s) (ambient s).

(** [setMusicVolume(volume)].  The ambient source never gets a
    [gainNode] property (the gain node of the loop is a local of
    [generateAmbientLoop]), so the guarded assignment never runs. *)
Definition setMusicVolume (volume : Q) (s : t) : t :=
  mk (masterVolume s) (sfxVolume s) (unit_clamp volume) (isMuted s)
     (masterGain s) (ambient s).

(** [stopAmbientSound()] *)
Definition stopAmbientSound (s : t) : t :=
  mk (masterVolume s) (sfxVolume s) (musicVolume s) (isMuted s)
     (masterGain s) None.

(** [playAmbientSound()]: nothing happens while a loop is playing or
    without an audio context; otherwise the loop starts with the
    current music volume as its gain. *)
Definition playAmbientSound (s : t) : t :=
  match ambient s, masterGain s with
  | Some _, _ => s
  | None, None => s
  | None, Some _ =>
      mk (masterVolume s) (sfxVolume s) (musicVolume s) (isMuted s)
         (masterGain s) (Some (musicVolume s))
  end.

(** [toggleMute()]: the new value of [isMuted] and the state. *)
Definition toggleMute (s : t) : bool * t :=
  let muted := negb (isMuted s) in
  if muted then
    (true,
     mk (masterVolume s) (sfxVolume s) (musicVolume s) true
        (match masterGain s with Some _ => Some 0%Q | None => None end)
        None)
  else
    (false,
     mk (masterVolume s) (sfxVolume s) (musicVolume s) false
        (match masterGain s with Some _ => Some (masterVolume s) | None => None end)
        (ambient s)).

(** [soundConfig[soundName]?.volume]: [undefined] for a name that the
    table does not have. *)
Definition configVolume (soundName : string) : option Q :=
  if String.eqb soundName "coinInsert" then Some 0.9%Q
  else if String.eqb soundName "clawMove" then Some 0.6%Q
  else if String.eqb soundName "success" then Some 1.0%Q
  else if String.eqb soundName "fail" then Some 0.7%Q
  else if String.eqb soundName "ambient" then Some 0.3%Q
  else if String.eqb soundName "combo" then Some 0.9%Q
  else if String.eqb soundName "rare" then Some 1.0%Q
  else None.

(** [a || b] on numbers: [a] unless it is [undefined] or 0. *)
Definition orElse (a : option Q) (b : Q) : Q :=
  match a with
  | Some v => if Qeq_bool v 0 then b else v
  | None => b
  end.

(** The volume that [playHTML5Sound] and [playGeneratedSound] compute:
    [(options.volume || this.soundConfig[soundName]?.volume || 1) * this.sfxVolume]. *)
Definition effectiveVolume (soundName : string) (optionsVolume : option Q) (s : t) : Q :=
  (orElse optionsVolume (orElse (configVolume soundName) 1) * sfxVolume s)%Q.

(** The volume option that [playComboSound(comboLevel)] passes on. *)
Definition comboVolume (comboLevel : Z) : Q :=
  JS.Math_min 1.0 (0.5 + inject_Z comboLevel * 0.1)%Q.

End SoundManager.

(** * Vocabulary of the properties *)

Section Vocabulary.
Local Open Scope Q_scope.

(** ** Probabilities and positions *)

(** The configured range of the success probability. *)
Definition within_rate_range (v : JS.number) : Prop :=
  match v with
  | JS.Num q => 0.3 <= q /\ q <= 0.9
  | JS.NaN => False
  end.

(** The movement boundary of the claw. *)
Definition within_boundary (p : Position) : Prop :=
  (minX <= px p /\ px p <= maxX) /\ (minY <= py p /\ py p <= maxY).

(** [v] clamped to [[lo, hi]]. *)
Definition clamp (lo hi v : Q) : Q := JS.Math_max lo (JS.Math_min hi v).

(** The four directions that [move] knows. *)
Definition is_direction (direction : string) : Prop :=
  direction = "left"%string \/ direction = "right"%string \/
  direction = "forward"%string \/ direction = "back"%string.

(** The step of a direction on each axis. *)
Definition step_x (direction : string) : Q :=
  if String.eqb direction "left" then - moveStep
  else if String.eqb direction "right" then moveStep else 0.
Definition step_y (direction : string) : Q :=
  if String.eqb direction "forward" then moveStep
  else if String.eqb direction "back" then - moveStep else 0.

(** ** Prize placement *)

(** The range of positions as the specification words it:
    [[margin, boundary - size - margin]] on each axis. *)
Definition specified_range (sz : Size) (p : Position) : Prop :=
  (PrizeGenerator.margin <= px p /\
   px p <= PrizeGenerator.right - width sz - PrizeGenerator.margin) /\
  (PrizeGenerator.margin <= py p /\
   py p <= PrizeGenerator.bottom - height sz - PrizeGenerator.margin).

(** The range of positions that [getRandomPosition] draws from:
    [[margin, boundary - size/2 - margin)] on each axis. *)
Definition placement_range (sz : Size) (p : Position) : Prop :=
  (PrizeGenerator.margin <= px p /\
   px p < PrizeGenerator.right - width sz / 2 - PrizeGenerator.margin) /\
  (PrizeGenerator.margin <= py p /\
   py p < PrizeGenerator.bottom - height sz / 2 - PrizeGenerator.margin).

(** A prize of a configured size whose position lies in the placement
    range of its size. *)
Definition placed (p : PrizeGenerator.Prize) : Prop :=
  (exists ty, PrizeGenerator.size p =
              PrizeGenerator.cfg_size (PrizeGenerator.prizeTypes ty)) /\
  placement_range (PrizeGenerator.size p) (PrizeGenerator.position p).

(** The invariant of prize generation: every prize of the array is
    placed, and the random source is well formed. *)
Definition all_placed (ps : list PrizeGenerator.Prize) (g : JS.RNG) : Prop :=
  Forall placed ps /\ JS.well_formed g.

Definition pass_placed (st : PrizeGenerator.PassState) : Prop :=
  all_placed (fst (fst st)) (snd st).

(** ** Overlaps *)

(** Two prizes are at least [minDistance] apart on one axis. *)
Definition apart (p1 p2 : PrizeGenerator.Prize) : Prop :=
  PrizeGenerator.minDistance p1 p2 <=
    Qabs (px (PrizeGenerator.position p1) - px (PrizeGenerator.position p2)) \/
  PrizeGenerator.minDistance p1 p2 <=
    Qabs (py (PrizeGenerator.position p1) - py (PrizeGenerator.position p2)).

(** No two prizes of the array overlap. *)
Definition overlap_free (ps : list PrizeGenerator.Prize) : Prop :=
  forall (i j : nat) (p1 p2 : PrizeGenerator.Prize),
    (i < j)%nat -> ps !! i = Some p1 -> ps !! j = Some p2 -> apart p1 p2.

(** The prize array and the random source after [k] passes of the
    loop of [resolveOverlaps], and whether the pass after them finds
    an overlap. *)
Fixpoint passes (k : nat) (ps : list PrizeGenerator.Prize) (g : JS.RNG)
    : list PrizeGenerator.Prize * JS.RNG :=
  match k with
  | O => (ps, g)
  | S k' =>
      let '(ps1, _, g1) := PrizeGenerator.pass ps g in passes k' ps1 g1
  end.

Definition hasOverlap (st : PrizeGenerator.PassState) : bool := snd (fst st).

Definition found_overlap (k : nat) (ps : list PrizeGenerator.Prize) (g : JS.RNG) : bool :=
  hasOverlap (PrizeGenerator.pass (fst (passes k ps g)) (snd (passes k ps g))).

(** Two prizes drawn at the same place, and a random source that
    alternates between 0.9 and 0.1. *)
Definition stacked_prizes : list PrizeGenerator.Prize :=
  [PrizeGenerator.mkPrize 1 pointToken (mkPosition 20 20) (mkSize 30 30)
     common true false false 0 0;
   PrizeGenerator.mkPrize 2 pointToken (mkPosition 20 20) (mkSize 30 30)
     common true false false 0 0].

Definition alternating : JS.RNG :=
  JS.mkRNG (fun n => if Nat.even n then 0.9 else 0.1) 0.

(** Two stacked prizes at the very place that a random source
    repeating 0.6 draws again and again, and what [resolveOverlaps]
    makes of them. *)
Definition stuck_prizes : list PrizeGenerator.Prize :=
  [PrizeGenerator.mkPrize 1 pointToken (mkPosition 50 41) (mkSize 30 30)
     common true false false 0 0;
   PrizeGenerator.mkPrize 2 pointToken (mkPosition 50 41) (mkSize 30 30)
     common true false false 0 0].

Definition stuck_result : list PrizeGenerator.Prize :=
  Eval vm_compute in
    fst (fst (PrizeGenerator.resolveOverlaps stuck_prizes (JS.constant 0.6))).

(** ** Candidates of a grab *)

(** A prize that a grab at [(x, y)] may take: neither collected nor
    grabbed, and at a straight-line distance of at most [tolerance]. *)
Definition in_reach (x y tolerance : Q) (p : PrizeGenerator.Prize) : Prop :=
  PrizeGenerator.collected p = false /\
  PrizeGenerator.grabbed p = false /\
  0 <= tolerance /\
  PrizeGenerator.distance2 (PrizeGenerator.position p) x y <= tolerance * tolerance.

(** [p] is a nearest prize in reach. *)
Definition nearest_in_reach (x y tolerance : Q)
    (ps : list PrizeGenerator.Prize) (p : PrizeGenerator.Prize) : Prop :=
  In p ps /\ in_reach x y tolerance p /\
  forall q, In q ps -> in_reach x y tolerance q ->
    PrizeGenerator.distance2 (PrizeGenerator.position p) x y <=
    PrizeGenerator.distance2 (PrizeGenerator.position q) x y.

(** Two prizes in reach of the grab position (50, 50): the first of
    the array at distance 10, the second at distance 1. *)
Definition far_prize : PrizeGenerator.Prize :=
  PrizeGenerator.mkPrize 1 pointToken (mkPosition 60 50) (mkSize 30 30)
    common true false false 0 0.
Definition near_prize : PrizeGenerator.Prize :=
  PrizeGenerator.mkPrize 2 pointToken (mkPosition 51 50) (mkSize 30 30)
    common true false false 0 0.

(** ** Scenarios *)

(** The progression state after one win, at time 1000, in a new game. *)
Definition state_after_one_win : GameState.t :=
  fst (GameState.apply (GameState.OpCollectPrize 1000 kuromiPlush 1)
         (JS.constant 0.5) GameState.new).

(** A token prize in reach of the claw at its home position. *)
Definition token_in_reach : PrizeGenerator.Prize :=
  PrizeGenerator.mkPrize 1 pointToken (mkPosition 55 50) (mkSize 30 30)
    common true false false 0 0.

(** A machine at rest with 5 coins, a streak of 3 and a combo of 2. *)
Definition idle_world : World :=
  mkWorld
    (GameState.mk 5 120 3 5 [] false (mkPosition 50 50) true 2 0)
    (PrizeGenerator.mk [token_in_reach] 1)
    (ClawController.new true)
    [] 0%Z (JS.constant 0).

(** The same machine in the middle of a grab sequence, holding the
    prize: the grab was accepted at time 0 and the attempt at 40% of
    the sequence has succeeded; the callbacks of the phases at 60%,
    80% and 100% are pending. *)
Definition holding_world : World :=
  mkWorld
    (GameState.mk 4 120 3 6 [] true (mkPosition 50 50) true 2 0)
    (PrizeGenerator.mk [PrizeGenerator.set_grabbed true token_in_reach] 1)
    (ClawController.mk (mkPosition 50 50) false true (Some 1%nat) 500 true)
    [(1500%Z, AnimateClawUp); (2000%Z, ReturnClaw); (2500%Z, CompleteGrabSequence)]
    1000%Z (JS.mkRNG (fun _ => 0) 1).

(** The machine at rest with no coins left and a streak of 3. *)
Definition broke_world : World :=
  mkWorld
    (GameState.mk 0 120 3 5 [] false (mkPosition 50 50) true 2 0)
    (PrizeGenerator.mk [token_in_reach] 1)
    (ClawController.new true)
    [] 0%Z (JS.constant 0).

(** The callbacks of the grab sequence. *)
Definition grab_sequence_callback (cb : Callback) : Prop :=
  cb = AttemptGrab \/ cb = AnimateClawUp \/ cb = ReturnClaw \/
  cb = CompleteGrabSequence.

(** What releasing prize [i] does to the prize store: every prize
    keeps its identity, position and [collected] flag; the released
    prize is no longer grabbed, the others are untouched. *)
Definition released (i : nat) (before after : list PrizeGenerator.Prize) : Prop :=
  Forall2 (fun p q =>
             PrizeGenerator.id q = PrizeGenerator.id p /\
             PrizeGenerator.position q = PrizeGenerator.position p /\
             PrizeGenerator.collected q = PrizeGenerator.collected p /\
             (PrizeGenerator.id p = i -> PrizeGenerator.grabbed q = false) /\
             (PrizeGenerator.id p <> i -> q = p))
          before after.

End Vocabulary.

(** * Vocabulary of the further properties *)

Section FurtherVocabulary.
Local Open Scope Q_scope.

(** The entry that [collectPrize] pushed last, if any. *)
Definition lastCollected (s : GameState.t) : option GameState.Collected :=
  List.last (List.map Some (GameState.prizes s)) None.

(** The record of wins agrees with the counters: every entry has a
    combo of at least 1 and at most its rank in the collection; the
    time of the last win is the timestamp of the last entry (0 when
    there is none); the combo is 0 or the combo of the last entry; and
    neither streak nor combo exceeds the number of entries. *)
Definition collection_consistent (s : GameState.t) : Prop :=
  Forall (fun e => (1 <= GameState.c_combo e <=
                    Z.of_nat (length (GameState.prizes s)))%Z) (GameState.prizes s) /\
  match lastCollected s with
  | None => GameState.lastWinTime s = 0%Z /\ GameState.combo s = 0%Z
  | Some e =>
      GameState.lastWinTime s = GameState.c_timestamp e /\
      (GameState.combo s = 0%Z \/ GameState.combo s = GameState.c_combo e)
  end /\
  (0 <= GameState.streak s <= Z.of_nat (length (GameState.prizes s)))%Z /\
  (0 <= GameState.combo s <= Z.of_nat (length (GameState.prizes s)))%Z.

(** The sum that [getSuccessRate] clamps. *)
Definition unclampedRate (baseRate : Q) (s : GameState.t) : Q :=
  baseRate + JS.Math_min (inject_Z (GameState.streak s) * 0.02) 0.1
  - (if (GameState.coins s <? 2)%Z then 0.05 else 0).

(** [a <= b] on results of [getSuccessRate]. *)
Definition rate_le (a b : JS.number) : Prop :=
  match a, b with
  | JS.Num x, JS.Num y => x <= y
  | _, _ => False
  end.

(** [q] is [p] at another position: giving [q] the position of [p]
    gives [p]. *)
Definition moved_only (p q : PrizeGenerator.Prize) : Prop :=
  PrizeGenerator.set_position (PrizeGenerator.position p) q = p.

(** A prize as [createPrize] makes it: neither grabbed nor
    collected, with the size, rarity and stacking of its type. *)
Definition fresh_prize (p : PrizeGenerator.Prize) : Prop :=
  PrizeGenerator.grabbed p = false /\ PrizeGenerator.collected p = false /\
  PrizeGenerator.size p =
    PrizeGenerator.cfg_size (PrizeGenerator.prizeTypes (PrizeGenerator.type p)) /\
  PrizeGenerator.rarity p =
    PrizeGenerator.cfg_rarity (PrizeGenerator.prizeTypes (PrizeGenerator.type p)) /\
  PrizeGenerator.stackable p =
    PrizeGenerator.cfg_stackable (PrizeGenerator.prizeTypes (PrizeGenerator.type p)).

(** The prizes that a run of [createPrize] calls appends: their ids
    count up from the counter, their types are as requested. *)
Definition appended (ids : list nat) (types : list PrizeType)
    (before after : list PrizeGenerator.Prize) : Prop :=
  exists added,
    after = before ++ added /\
    List.map PrizeGenerator.id added = ids /\
    List.map PrizeGenerator.type added = types /\
    Forall fresh_prize added.

(** The invariant of a pass of [resolveOverlaps] with respect to the
    array it started from: prizes are only moved, and the first one
    not even that. *)
Definition only_moved (ps0 ps : list PrizeGenerator.Prize) : Prop :=
  Forall2 moved_only ps0 ps /\ ps !! 0%nat = ps0 !! 0%nat.

(** A value between 0 and 1. *)
Definition unit_range (v : Q) : Prop := 0 <= v /\ v <= 1.

(** All the volumes and gains of the sound manager are between 0
    and 1. *)
Definition volumes_in_range (s : SoundManager.t) : Prop :=
  unit_range (SoundManager.masterVolume s) /\
  unit_range (SoundManager.sfxVolume s) /\
  unit_range (SoundManager.musicVolume s) /\
  (forall v, SoundManager.masterGain s = Some v -> unit_range v) /\
  (forall v, SoundManager.ambient s = Some v -> unit_range v).

End FurtherVocabulary.

(** * Properties *)

(** ** Arithmetic of [Math.max] and [Math.min] *)

Section MinMax.
Local Open Scope Q_scope.

Lemma Math_max_cases (a b : Q) :
  (a <= b /\ JS.Math_max a b = b) \/ (b < a /\ JS.Math_max a b = a).
Proof.
  unfold JS.Math_max. destruct (Qle_bool a b) eqn:E.
  - left. split; [now apply Qle_bool_iff | reflexivity].
  - right. split; [| reflexivity].
    apply Qnot_le_lt. intros H. apply Qle_bool_iff in H. congruence.
Qed.

Lemma Math_min_cases (a b : Q) :
  (a <= b /\ JS.Math_min a b = a) \/ (b < a /\ JS.Math_min a b = b).
Proof.
  unfold JS.Math_min. destruct (Qle_bool a b) eqn:E.
  - left. split; [now apply Qle_bool_iff | reflexivity].
  - right. split; [| reflexivity].
    apply Qnot_le_lt. intros H. apply Qle_bool_iff in H. congruence.
Qed.

Lemma Qlt_bool_iff (a b : Q) : JS.Qlt_bool a b = true <-> a < b.
Proof.
  unfold JS.Qlt_bool. rewrite negb_true_iff. split.
  - intros E. apply Qnot_le_lt. intros H. apply Qle_bool_iff in H. congruence.
  - intros H. destruct (Qle_bool b a) eqn:E; [| reflexivity].
    apply Qle_bool_iff in E. lra.
Qed.

Lemma Qlt_bool_false_iff (a b : Q) : JS.Qlt_bool a b = false <-> b <= a.
Proof.
  unfold JS.Qlt_bool. rewrite negb_false_iff. apply Qle_bool_iff.
Qed.

(** The clamp of [getSuccessRate] and [updateClawPosition]. *)
Lemma clamp_between (lo hi v : Q) :
  lo <= hi -> lo <= JS.Math_max lo (JS.Math_min hi v) <= hi.
Proof.
  intros Hlh.
  destruct (Math_min_cases hi v) as [[? ->] | [? ->]];
    destruct (Math_max_cases lo hi) as [[? E1] | [? E1]];
    destruct (Math_max_cases lo v) as [[? E2] | [? E2]];
    rewrite ?E1, ?E2; lra.
Qed.

End MinMax.

(** ** Success probability *)

(** For the three prize types of the [successRates] table the clamp
    keeps the rate in range, whatever the streak and the coins. *)
Lemma getSuccessRate_configured (ty : PrizeType) (s : GameState.t) :
  ty <> purpleBall -> within_rate_range (GameState.getSuccessRate ty s).
Proof.
  intros Hty. unfold GameState.getSuccessRate.
  destruct ty; simpl; try congruence; apply clamp_between; lra.
Qed.

(** C4: for the prize type [purpleBall], which the prize generator
    places in the field but the [successRates] table does not list,
    [getSuccessRate] returns [NaN] for every streak and every number of
    coins; the result is not a probability in [[0.3, 0.9]]. *)
Theorem getSuccessRate_purpleBall_NaN (s : GameState.t) :
  GameState.getSuccessRate purpleBall s = JS.NaN /\
  ~ within_rate_range (GameState.getSuccessRate purpleBall s) /\
  (forall r, JS.lt r (GameState.getSuccessRate purpleBall s) = false).
Proof.
  unfold GameState.getSuccessRate. simpl. repeat split; auto.
Qed.

(** ** Spending a coin *)

Lemma spendCoin_accepts (s s' : GameState.t) :
  GameState.spendCoin s = (true, s') ->
  GameState.coins s' = GameState.coins s - 1 /\
  GameState.totalPlays s' = GameState.totalPlays s + 1 /\
  0 < GameState.coins s.
Proof.
  unfold GameState.spendCoin. destruct (GameState.coins s <=? 0) eqn:E.
  - discriminate.
  - intros [= <-]. simpl. apply Z.leb_gt in E. auto.
Qed.

Lemma spendCoin_rejects (s : GameState.t) :
  GameState.coins s <= 0 -> GameState.spendCoin s = (false, s).
Proof.
  intros H. unfold GameState.spendCoin.
  apply Z.leb_le in H. now rewrite H.
Qed.

Lemma executeGrabSequence_gameState (w : World) :
  gameState (executeGrabSequence w) = gameState w.
Proof. reflexivity. Qed.

(** C5: an accepted [grab()] takes exactly one coin and counts one
    play, both in the one call of [spendCoin]; with no coins [grab()]
    (like [spendCoin()]) returns false and leaves the whole state as
    it was. *)
Theorem grab_spends_exactly_one_coin (w : World) :
  (forall w', grab w = (true, w') ->
     GameState.coins (gameState w') = GameState.coins (gameState w) - 1 /\
     GameState.totalPlays (gameState w') = GameState.totalPlays (gameState w) + 1 /\
     fst (GameState.spendCoin (gameState w)) = true) /\
  (GameState.coins (gameState w) = 0 ->
     grab w = (false, w) /\ GameState.spendCoin (gameState w) = (false, gameState w)).
Proof.
  split.
  - intros w' H. unfold grab in H.
    destruct (busy w); [discriminate |].
    destruct (GameState.spendCoin (gameState w)) as [ok gs] eqn:E.
    destruct ok; simpl in H; [| discriminate].
    injection H as <-.
    destruct (spendCoin_accepts _ _ E) as (Hc & Hp & Hpos).
    rewrite executeGrabSequence_gameState. simpl.
    unfold GameState.setPlaying. simpl.
    repeat split.
    + destruct (GameState.gameStarted gs); simpl; exact Hc.
    + destruct (GameState.gameStarted gs); simpl; exact Hp.
  - intros H0. split.
    + unfold grab, busy, GameState.canPlay. rewrite H0. simpl.
      now rewrite !orb_true_r.
    + apply spendCoin_rejects. lia.
Qed.

Lemma grab_spends_exactly_one_coin_witness :
  GameState.coins (gameState (snd (grab idle_world))) = 4 /\
  GameState.totalPlays (gameState (snd (grab idle_world))) = 6 /\
  grab broke_world = (false, broke_world).
Proof.
  destruct (grab_spends_exactly_one_coin idle_world) as [Ha _].
  destruct (grab_spends_exactly_one_coin broke_world) as [_ Hr].
  destruct (Ha (snd (grab idle_world)) eq_refl) as (Hc & Hp & _).
  destruct (Hr eq_refl) as [Hg _].
  split; [exact Hc | split; [exact Hp | exact Hg]].
Defined.

(** ** The coin replenishment of the game loop *)

Lemma triggerComboSpecialEffect_gameState (w : World) :
  gameState (KuromiClawMachine.triggerComboSpecialEffect w) = gameState w.
Proof. reflexivity. Qed.

(** C10: the game loop, once the game is initialized and playing,
    runs the check on every tick.  In a state with no coins and a
    streak of at least 3 the check adds 2 coins, so that the player can
    play again as soon as no sequence is in flight; in a state with
    coins left or a streak below 3 the check leaves the coins as they
    are. *)
Theorem checkSpecialConditions_replenishes (w : World) :
  KuromiClawMachine.updateGame true true w = KuromiClawMachine.checkSpecialConditions w /\
  (GameState.coins (gameState w) = 0 -> 3 <= GameState.streak (gameState w) ->
     GameState.coins (gameState (KuromiClawMachine.checkSpecialConditions w)) = 2 /\
     GameState.canPlay (gameState (KuromiClawMachine.checkSpecialConditions w)) =
       negb (GameState.isPlaying (gameState w))) /\
  (0 < GameState.coins (gameState w) \/ GameState.streak (gameState w) < 3 ->
     GameState.coins (gameState (KuromiClawMachine.checkSpecialConditions w)) =
       GameState.coins (gameState w)).
Proof.
  split; [reflexivity |].
  unfold KuromiClawMachine.checkSpecialConditions.
  set (w1 := if 5 <=? GameState.streak (gameState w) then _ else w).
  assert (H1 : gameState w1 = gameState w).
  { subst w1. now destruct (5 <=? GameState.streak (gameState w)). }
  set (w2 := if 3 <=? GameState.combo (gameState w1) then _ else w1).
  assert (H2 : gameState w2 = gameState w).
  { subst w2. destruct (3 <=? GameState.combo (gameState w1)); [| exact H1].
    destruct (JS.Math_random (rng w1)) as [r g'].
    destruct (JS.Qlt_bool r 0.1); exact H1. }
  rewrite H2. split.
  - intros Hc Hs. rewrite Hc. apply Z.leb_le in Hs. rewrite Hs. simpl.
    unfold GameState.canPlay. simpl. rewrite H2, Hc. auto.
  - intros [Hc | Hs].
    + destruct (GameState.coins (gameState w) =? 0) eqn:E.
      * apply Z.eqb_eq in E. lia.
      * simpl. now rewrite H2.
    + destruct (3 <=? GameState.streak (gameState w)) eqn:E.
      * apply Z.leb_le in E. lia.
      * rewrite andb_false_r. now rewrite H2.
Qed.

Lemma checkSpecialConditions_replenishes_witness :
  GameState.coins (gameState (KuromiClawMachine.checkSpecialConditions broke_world)) = 2 /\
  GameState.coins (gameState (KuromiClawMachine.checkSpecialConditions idle_world)) = 5.
Proof.
  destruct (checkSpecialConditions_replenishes broke_world) as (_ & Ha & _).
  destruct (checkSpecialConditions_replenishes idle_world) as (_ & _ & Hb).
  split.
  - apply Ha; [reflexivity | simpl; lia].
  - apply Hb. left. simpl. lia.
Defined.

(** ** Movement *)

Section Movement.
Local Open Scope Q_scope.

Lemma clamp_cases (lo hi v : Q) :
  lo <= hi ->
  (v < lo /\ clamp lo hi v == lo) \/
  (lo <= v /\ v <= hi /\ clamp lo hi v == v) \/
  (hi < v /\ clamp lo hi v == hi).
Proof.
  intros Hlh. unfold clamp.
  destruct (Math_min_cases hi v) as [[? ->] | [? ->]].
  - destruct (Math_max_cases lo hi) as [[? ->] | [? ->]]; [| lra].
    destruct (Qlt_le_dec hi v); [right; right; split; lra |].
    right; left. repeat split; lra.
  - destruct (Math_max_cases lo v) as [[? ->] | [? ->]].
    + right; left. repeat split; lra.
    + left. split; lra.
Qed.

Lemma samePosition_iff (a b : Position) :
  samePosition a b = true <-> px a == px b /\ py a == py b.
Proof.
  unfold samePosition. rewrite andb_true_iff, !Qeq_bool_iff. reflexivity.
Qed.

(** A direction is one of the four cases of the [switch] or falls
    through all of them. *)
Lemma direction_cases (direction : string) :
  is_direction direction \/
  (String.eqb direction "left" = false /\ String.eqb direction "right" = false /\
   String.eqb direction "forward" = false /\ String.eqb direction "back" = false).
Proof.
  unfold is_direction.
  destruct (String.eqb_spec direction "left"); [auto |].
  destruct (String.eqb_spec direction "right"); [auto |].
  destruct (String.eqb_spec direction "forward"); [auto |].
  destruct (String.eqb_spec direction "back"); auto.
Qed.

(** On the axis of the direction the new coordinate is the old one
    plus the step, clamped; the other coordinate is the old one. *)
Lemma newPosition_clamped (direction : string) (p : Position) :
  within_boundary p ->
  px (newPosition direction p) == clamp minX maxX (px p + step_x direction) /\
  py (newPosition direction p) == clamp minY maxY (py p + step_y direction) /\
  (px (newPosition direction p) = px p \/ py (newPosition direction p) = py p).
Proof.
  unfold within_boundary, minX, maxX, minY, maxY.
  intros [[Hx1 Hx2] [Hy1 Hy2]].
  assert (Hcx : clamp 15 85 (px p + 0) == px p).
  { destruct (clamp_cases 15 85 (px p + 0)) as [[? E] | [(? & ? & E) | [? E]]];
      rewrite ?E; lra. }
  assert (Hcy : clamp 15 75 (py p + 0) == py p).
  { destruct (clamp_cases 15 75 (py p + 0)) as [[? E] | [(? & ? & E) | [? E]]];
      rewrite ?E; lra. }
  destruct (direction_cases direction)
    as [[-> | [-> | [-> | ->]]] | (E1 & E2 & E3 & E4)];
    unfold newPosition, step_x, step_y, moveStep, minX, maxX, minY, maxY;
    rewrite ?E1, ?E2, ?E3, ?E4;
    simpl; (split; [| split; [| auto]]); try (symmetry; assumption).
  - destruct (clamp_cases 15 85 (px p + - 8)) as [[? E] | [(? & ? & E) | [? E]]];
      try lra; rewrite E;
      destruct (Math_max_cases 15 (px p - 8)) as [[? ->] | [? ->]]; lra.
  - destruct (clamp_cases 15 85 (px p + 8)) as [[? E] | [(? & ? & E) | [? E]]];
      try lra; rewrite E;
      destruct (Math_min_cases 85 (px p + 8)) as [[? ->] | [? ->]]; lra.
  - destruct (clamp_cases 15 75 (py p + 8)) as [[? E] | [(? & ? & E) | [? E]]];
      try lra; rewrite E;
      destruct (Math_min_cases 75 (py p + 8)) as [[? ->] | [? ->]]; lra.
  - destruct (clamp_cases 15 75 (py p + - 8)) as [[? E] | [(? & ? & E) | [? E]]];
      try lra; rewrite E;
      destruct (Math_max_cases 15 (py p - 8)) as [[? ->] | [? ->]]; lra.
Qed.

Lemma clamp_within (lo hi v : Q) : lo <= hi -> lo <= clamp lo hi v /\ clamp lo hi v <= hi.
Proof. apply clamp_between. Qed.

(** C7: from a position inside the movement boundary, [move] in any
    direction ends inside the boundary.  An accepted move was given
    one of the four directions; it sets the coordinate of one axis to
    the old one plus or minus the step, clamped to the bounds of that
    axis, changes it, and keeps the other coordinate.  When the guard
    lets the move through, [move] returns false exactly when the
    clamped position equals the current one; and whenever it returns
    false the state, and with it the position, is unchanged. *)
Theorem move_stays_within_boundary (direction : string) (w w' : World) (r : bool) :
  within_boundary (position (claw w)) ->
  move direction w = (r, w') ->
  within_boundary (position (claw w')) /\
  (r = false -> w' = w) /\
  (r = true ->
     is_direction direction /\ moveStep == 8 /\
     px (position (claw w')) == clamp minX maxX (px (position (claw w)) + step_x direction) /\
     py (position (claw w')) == clamp minY maxY (py (position (claw w)) + step_y direction) /\
     ((~ px (position (claw w')) == px (position (claw w)) /\
       py (position (claw w')) = py (position (claw w))) \/
      (px (position (claw w')) = px (position (claw w)) /\
       ~ py (position (claw w')) == py (position (claw w))))) /\
  (busy w = false ->
     (r = false <->
      clamp minX maxX (px (position (claw w)) + step_x direction) == px (position (claw w)) /\
      clamp minY maxY (py (position (claw w)) + step_y direction) == py (position (claw w)))).
Proof.
  intros Hb Hm.
  destruct (newPosition_clamped direction (position (claw w)) Hb) as (Hx & Hy & Hax).
  unfold move in Hm. destruct (busy w) eqn:Hbusy.
  - injection Hm as <- <-.
    split; [exact Hb | split; [reflexivity | split; discriminate]].
  - destruct (samePosition _ _) eqn:Hs; injection Hm as <- <-.
    + apply samePosition_iff in Hs. destruct Hs as [Hsx Hsy].
      split; [exact Hb | split; [reflexivity | split; [discriminate |]]].
      intros _. split; [intros _ | reflexivity].
      split; [now rewrite <- Hx | now rewrite <- Hy].
    + assert (Hns : ~ (px (newPosition direction (position (claw w))) == px (position (claw w)) /\
                       py (newPosition direction (position (claw w))) == py (position (claw w)))).
      { intros H. apply samePosition_iff in H. congruence. }
      simpl. split; [| split; [discriminate | split]].
      * unfold within_boundary. rewrite Hx, Hy.
        split; apply clamp_within; unfold minX, maxX, minY, maxY; lra.
      * intros _. split; [| split; [reflexivity | split; [exact Hx | split; [exact Hy |]]]].
        -- destruct (direction_cases direction) as [Hd | (E1 & E2 & E3 & E4)]; [exact Hd |].
           exfalso. apply Hns. unfold newPosition. rewrite E1, E2, E3, E4.
           split; reflexivity.
        -- destruct Hax as [E | E].
           ++ right. split; [exact E |]. intros H. apply Hns. split; [now rewrite E | exact H].
           ++ left. split; [| exact E]. intros H. apply Hns. split; [exact H | now rewrite E].
      * intros _. split; [discriminate |].
        intros [H1 H2]. exfalso. apply Hns. rewrite Hx, Hy. auto.
Qed.

Lemma move_stays_within_boundary_witness :
  within_boundary (position (claw (snd (move "left" idle_world)))) /\
  px (position (claw (snd (move "left" idle_world)))) == 42.
Proof.
  assert (Hb : within_boundary (position (claw idle_world))).
  { unfold within_boundary, minX, maxX, minY, maxY. simpl. lra. }
  destruct (move_stays_within_boundary "left" idle_world
              (snd (move "left" idle_world)) true Hb eq_refl)
    as (H1 & _ & H3 & _).
  split; [exact H1 |].
  destruct (H3 eq_refl) as (_ & _ & Hx & _). rewrite Hx. reflexivity.
Defined.

End Movement.

(** ** Prize placement *)

Section Placement.
Local Open Scope Q_scope.
Import PrizeGenerator.

(** A draw scaled by a positive extent and shifted by the margin. *)
Lemma scaled_draw_range (r m extent upper : Q) :
  JS.unit_interval r -> 0 < extent -> m + extent == upper ->
  m <= m + r * extent /\ m + r * extent < upper.
Proof.
  intros [H0 H1] He Hu.
  assert (0 <= r * extent) by (apply Qmult_le_0_compat; lra).
  assert (0 < (1 - r) * extent) by (apply Qmult_lt_0_compat; lra).
  split; lra.
Qed.

Lemma getRandomPosition_configured (ty : PrizeType) (g : JS.RNG) :
  JS.well_formed g ->
  placement_range (cfg_size (prizeTypes ty))
                  (fst (getRandomPosition (cfg_size (prizeTypes ty)) g)).
Proof.
  intros Hg. unfold getRandomPosition, JS.Math_random, placement_range. simpl.
  pose proof (Hg (JS.cursor g)) as Ha.
  pose proof (Hg (S (JS.cursor g))) as Hb.
  destruct ty; simpl; split; apply scaled_draw_range;
    solve [assumption | reflexivity].
Qed.

(** The random source stays well formed as it is consumed. *)
Lemma Math_random_well_formed (g : JS.RNG) :
  JS.well_formed g -> JS.well_formed (snd (JS.Math_random g)).
Proof. intros H n. apply H. Qed.

Lemma getRandomPosition_well_formed (sz : Size) (g : JS.RNG) :
  JS.well_formed g -> JS.well_formed (snd (getRandomPosition sz g)).
Proof. intros H n. apply H. Qed.

Lemma createPrize_placed (ty : PrizeType) (counter : nat) (g : JS.RNG) :
  JS.well_formed g ->
  placed (fst (fst (createPrize ty (prizeTypes ty) counter g))) /\
  JS.well_formed (snd (createPrize ty (prizeTypes ty) counter g)).
Proof.
  intros Hg. split; [| intros n; apply Hg].
  split; [exists ty; reflexivity |].
  apply (getRandomPosition_configured ty g Hg).
Qed.

Lemma createMany_placed (ty : PrizeType) (n : nat) (st : t) (g : JS.RNG) :
  all_placed (prizes st) g ->
  all_placed (prizes (fst (createMany ty n st g))) (snd (createMany ty n st g)).
Proof.
  revert st g. induction n as [| n IH]; intros st g [Hps Hg]; cbn [createMany].
  - split; assumption.
  - destruct (createPrize_placed ty (prizeIdCounter st) g Hg) as [Hp Hg'].
    destruct (createPrize ty (prizeTypes ty) (prizeIdCounter st) g) as [[p c] g'].
    apply IH. split; [| exact Hg'].
    apply Forall_app. split; [exact Hps | now constructor].
Qed.

Lemma createAll_placed (tys : list PrizeType) (st : t) (g : JS.RNG) :
  all_placed (prizes st) g ->
  all_placed (prizes (fst (createAll tys st g))) (snd (createAll tys st g)).
Proof.
  revert st g. induction tys as [| ty tys IH]; intros st g H; cbn [createAll].
  - exact H.
  - pose proof (createMany_placed ty (count (prizeTypes ty)) st g H) as H'.
    destruct (createMany ty (count (prizeTypes ty)) st g) as [st' g'].
    now apply IH.
Qed.

Lemma visit_placed (i j : nat) (st : PassState) :
  pass_placed st -> pass_placed (visit i j st).
Proof.
  destruct st as [[ps b] g]. unfold pass_placed, visit. cbn [fst snd]. intros [Hps Hg].
  destruct (ps !! i) as [p1 |] eqn:E1; [| now split].
  destruct (ps !! j) as [p2 |] eqn:E2; [| now split].
  destruct (checkOverlap p1 p2); [| now split].
  destruct (Forall_lookup_1 _ _ _ _ Hps E2) as [[ty Hty] _].
  pose proof (getRandomPosition_configured ty g Hg) as Hpos.
  pose proof (getRandomPosition_well_formed (size p2) g Hg) as Hg'.
  rewrite <- Hty in Hpos.
  destruct (getRandomPosition (size p2) g) as [pos g']. cbn [fst snd] in *.
  split; [| exact Hg'].
  apply Forall_insert; [exact Hps |].
  split; [exists ty; exact Hty | exact Hpos].
Qed.

Lemma inner_placed (n i j : nat) (st : PassState) :
  pass_placed st -> pass_placed (inner i j n st).
Proof.
  revert j st. induction n as [| n IH]; intros j st H; cbn [inner]; [exact H |].
  apply IH. now apply visit_placed.
Qed.

Lemma outer_placed (n len i : nat) (st : PassState) :
  pass_placed st -> pass_placed (outer len i n st).
Proof.
  revert i st. induction n as [| n IH]; intros i st H; cbn [outer]; [exact H |].
  apply IH. now apply inner_placed.
Qed.

Lemma loop_placed (remaining attempts : nat) (ps : list Prize) (g : JS.RNG) :
  all_placed ps g ->
  all_placed (fst (fst (loop remaining attempts ps g))) (snd (loop remaining attempts ps g)).
Proof.
  revert attempts ps g.
  induction remaining as [| rem IH]; intros attempts ps g H; cbn [loop]; [exact H |].
  assert (Hp : pass_placed (pass ps g)) by (apply outer_placed; exact H).
  destruct (pass ps g) as [[ps' b] g']. destruct b; [now apply IH | exact Hp].
Qed.

Lemma generatePrizes_placed (st : t) (g : JS.RNG) :
  JS.well_formed g -> Forall placed (prizes (fst (generatePrizes st g))).
Proof.
  intros Hg. unfold generatePrizes.
  assert (H0 : all_placed (prizes (mk [] (prizeIdCounter st))) g)
    by (split; [constructor | exact Hg]).
  pose proof (createAll_placed prizeTypeKeys _ g H0) as H1.
  destruct (createAll prizeTypeKeys (mk [] (prizeIdCounter st)) g) as [st1 g1].
  pose proof (loop_placed maxAttempts 0 (prizes st1) g1 H1) as H2.
  unfold resolveOverlaps.
  destruct (loop maxAttempts 0 (prizes st1) g1) as [[ps a] g2].
  exact (proj1 H2).
Qed.

(** C8: with draws in [[0, 1)], the position drawn for a prize of
    any configured type lies in
    [[margin, boundary - size/2 - margin)] on each axis, the margin
    being 5; and so does the position of every prize of the array
    that [generatePrizes] leaves, after [resolveOverlaps] has drawn
    some of them again. *)
Theorem getRandomPosition_within_placement_range (ty : PrizeType) (g : JS.RNG) :
  JS.well_formed g ->
  let sz := cfg_size (prizeTypes ty) in
  let p := fst (getRandomPosition sz g) in
  margin == 5 /\ placement_range sz p /\
  forall st prize, In prize (prizes (fst (generatePrizes st g))) ->
    placement_range (size prize) (position prize).
Proof.
  intros Hg. split; [reflexivity |]. split; [now apply getRandomPosition_configured |].
  intros st prize Hin.
  pose proof (generatePrizes_placed st g Hg) as H.
  rewrite List.Forall_forall in H. destruct (H prize Hin) as [_ Hr]. exact Hr.
Qed.

Lemma getRandomPosition_within_placement_range_witness :
  placement_range (mkSize 45 45)
    (fst (getRandomPosition (mkSize 45 45) (JS.constant 0.9))).
Proof.
  assert (Hg : JS.well_formed (JS.constant 0.9)).
  { intros n. unfold JS.unit_interval. simpl. lra. }
  destruct (getRandomPosition_within_placement_range kuromiPlush (JS.constant 0.9) Hg)
    as (_ & H & _).
  exact H.
Defined.

(** The plush prize drawn with 0.9 lies at x = 65.75, beyond
    [boundary - size - margin = 50]. *)
Lemma getRandomPosition_exceeds_specified_range :
  JS.well_formed (JS.constant 0.9) /\
  ~ specified_range (cfg_size (prizeTypes kuromiPlush))
      (fst (getRandomPosition (cfg_size (prizeTypes kuromiPlush)) (JS.constant 0.9))).
Proof.
  split.
  - intros n. unfold JS.unit_interval. simpl. lra.
  - unfold specified_range, getRandomPosition, margin, right, left. simpl.
    intros [[_ H] _]. vm_compute in H. now apply H.
Qed.

End Placement.

(** ** Candidate selection *)

Section Candidate.
Local Open Scope Q_scope.
Import PrizeGenerator.

Lemma eligible_iff (x y tolerance : Q) (p : Prize) :
  eligible x y tolerance p = true <-> in_reach x y tolerance p.
Proof.
  unfold eligible, in_reach, withinTolerance.
  destruct (collected p), (grabbed p); simpl;
    rewrite ?andb_true_iff, ?Qle_bool_iff; intuition congruence.
Qed.

(** C2: [getPrizeAtPosition] returns the first prize of the array,
    in insertion order, that is in reach (uncollected, ungrabbed and
    within the tolerance, 15 by default): every prize before it is
    out of reach; it returns nothing exactly when no prize is in
    reach. *)
Theorem getPrizeAtPosition_first_in_reach (x y tolerance : Q) (ps : list Prize) :
  defaultTolerance == 15 /\
  (forall p, getPrizeAtPosition x y tolerance ps = Some p ->
     in_reach x y tolerance p /\
     exists before after, ps = before ++ p :: after /\
       forall q, In q before -> ~ in_reach x y tolerance q) /\
  (getPrizeAtPosition x y tolerance ps = None <->
     forall q, In q ps -> ~ in_reach x y tolerance q).
Proof.
  split; [reflexivity |]. unfold getPrizeAtPosition. split.
  - induction ps as [| a ps IH]; simpl; intros p H; [discriminate |].
    destruct (eligible x y tolerance a) eqn:E.
    + injection H as <-. split; [now apply eligible_iff |].
      exists [], ps. split; [reflexivity | intros q []].
    + destruct (IH p H) as (Hp & before & after & -> & Hb).
      split; [exact Hp |]. exists (a :: before), after. split; [reflexivity |].
      intros q [<- | Hq]; [| now apply Hb].
      intros Hr. apply eligible_iff in Hr. congruence.
  - split.
    + intros H q Hq Hr. apply eligible_iff in Hr.
      apply (List.find_none _ _ H) in Hq. congruence.
    + intros H. induction ps as [| a ps IH]; simpl; [reflexivity |].
      destruct (eligible x y tolerance a) eqn:E.
      * exfalso. apply (H a); [now left | now apply eligible_iff].
      * apply IH. intros q Hq. apply H. now right.
Qed.

Lemma getPrizeAtPosition_first_in_reach_witness :
  in_reach 50 50 15 far_prize.
Proof.
  destruct (getPrizeAtPosition_first_in_reach 50 50 15 [far_prize; near_prize])
    as (_ & H & _).
  apply (H far_prize). reflexivity.
Defined.

Lemma getPrizeAtPosition_not_nearest :
  getPrizeAtPosition 50 50 defaultTolerance [far_prize; near_prize] = Some far_prize /\
  ~ nearest_in_reach 50 50 defaultTolerance [far_prize; near_prize] far_prize.
Proof.
  split; [reflexivity |].
  intros (_ & _ & H).
  specialize (H near_prize (or_intror (or_introl eq_refl))).
  assert (Hn : in_reach 50 50 defaultTolerance near_prize).
  { apply eligible_iff. reflexivity. }
  specialize (H Hn). unfold distance2, far_prize, near_prize in H. simpl in H. lra.
Qed.

End Candidate.

(** ** Streak and combo *)

Section Progression.
Import GameState.

Lemma processPrizeReward_counters (ty : PrizeType) (g : JS.RNG) (s : t) :
  let s' := fst (processPrizeReward ty g s) in
  streak s' = streak s /\ combo s' = combo s /\ lastWinTime s' = lastWinTime s.
Proof. destruct ty; simpl; auto. Qed.

Lemma collectPrize_counters (now : Z) (ty : PrizeType) (data : nat) (g : JS.RNG) (s : t) :
  let s' := fst (collectPrize now ty data g s) in
  combo s' = (if now - lastWinTime s <? comboTimeout then combo s + 1 else 1) /\
  lastWinTime s' = now /\
  streak s' = Z.min (streak s + 1) maxStreak.
Proof.
  unfold collectPrize.
  match goal with |- context [processPrizeReward ty g ?x] =>
    destruct (processPrizeReward_counters ty g x) as (Hs & Hc & Hl) end.
  cbv zeta. rewrite Hs, Hc, Hl. clear Hs Hc Hl.
  destruct (now - lastWinTime s <? comboTimeout); simpl;
    destruct (maxStreak <? streak s + 1) eqn:E; simpl;
    (repeat split; try reflexivity);
    unfold maxStreak in *; try apply Z.ltb_lt in E; try apply Z.ltb_ge in E; lia.
Qed.

Lemma missedGrab_counters (g : JS.RNG) (s : t) :
  let s' := fst (missedGrab g s) in
  streak s' = 0 /\ combo s' = 0 /\ lastWinTime s' = lastWinTime s /\
  coins s' = coins s.
Proof.
  unfold missedGrab. simpl. destruct (JS.Qlt_bool _ _); simpl; auto.
Qed.

Lemma spendCoin_counters (s : t) :
  let s' := snd (spendCoin s) in
  streak s' = streak s /\ combo s' = combo s /\ lastWinTime s' = lastWinTime s.
Proof. unfold spendCoin. destruct (coins s <=? 0); simpl; auto. Qed.

Lemma setPlaying_counters (b : bool) (s : t) :
  let s' := setPlaying b s in
  streak s' = streak s /\ combo s' = combo s /\ lastWinTime s' = lastWinTime s /\
  coins s' = coins s /\ points s' = points s /\ totalPlays s' = totalPlays s /\
  isPlaying s' = b.
Proof.
  unfold setPlaying. simpl. destruct (b && negb (gameStarted s)); simpl; auto 10.
Qed.

(** In every reachable state the streak lies between 0 and its cap
    and the combo is not negative. *)
Lemma reachable_counters (s : t) :
  reachable s -> 0 <= streak s <= maxStreak /\ 0 <= combo s.
Proof.
  induction 1 as [| s op g Hr IH].
  - simpl. unfold maxStreak. lia.
  - destruct op as [amount | | amount | tm ty data | | x y | playing |]; simpl; try exact IH.
    + now destruct (spendCoin_counters s) as (-> & -> & _).
    + destruct (collectPrize_counters tm ty data g s) as (-> & _ & ->).
      unfold maxStreak in *.
      destruct (tm - lastWinTime s <? comboTimeout); lia.
    + destruct (missedGrab_counters g s) as (-> & -> & _).
      unfold maxStreak. lia.
    + now destruct (setPlaying_counters playing s) as (-> & -> & _).
    + unfold maxStreak. lia.
Qed.

(** C3: a miss sets streak and combo to 0.  A win sets the combo to
    the old combo plus one when it comes less than the combo timeout
    after the last win, and to 1 otherwise, and leaves a positive
    streak.  No other operation than a miss, a win and the explicit
    reset changes streak, combo or the time of the last win: the
    passage of time alone does not clear the combo, and a positive
    streak becomes 0 only by a miss or by the reset. *)
Theorem streak_and_combo_resets (s : t) (op : Op) (g : JS.RNG) :
  reachable s ->
  let s' := fst (apply op g s) in
  (op = OpMissedGrab -> streak s' = 0 /\ combo s' = 0) /\
  (forall now ty data, op = OpCollectPrize now ty data ->
     combo s' = (if now - lastWinTime s <? comboTimeout then combo s + 1 else 1) /\
     lastWinTime s' = now /\
     streak s' = Z.min (streak s + 1) maxStreak /\
     0 < streak s' /\ 0 < combo s') /\
  ((forall now ty data, op <> OpCollectPrize now ty data) ->
   op <> OpMissedGrab -> op <> OpReset ->
     streak s' = streak s /\ combo s' = combo s /\ lastWinTime s' = lastWinTime s) /\
  (0 < streak s -> streak s' = 0 -> op = OpMissedGrab \/ op = OpReset).
Proof.
  intros Hr. destruct (reachable_counters s Hr) as [[Hs0 Hs1] Hc0].
  cbv zeta. split; [| split; [| split]].
  - intros ->. simpl. destruct (missedGrab_counters g s) as (-> & -> & _). auto.
  - intros tm ty data ->. simpl.
    destruct (collectPrize_counters tm ty data g s) as (-> & -> & ->).
    unfold maxStreak in *. repeat split; try lia.
    destruct (tm - lastWinTime s <? comboTimeout); lia.
  - intros Hw Hm Hre. destruct op as [amount | | amount | tm ty data | | x y | playing |]; simpl; auto.
    + apply spendCoin_counters.
    + now specialize (Hw tm ty data).
    + congruence.
    + destruct (setPlaying_counters playing s) as (-> & -> & -> & _). auto.
    + congruence.
  - intros Hpos Hz. destruct op as [amount | | amount | tm ty data | | x y | playing |]; simpl in Hz; auto; exfalso.
    + lia.
    + destruct (spendCoin_counters s) as (E & _). simpl in E. lia.
    + lia.
    + destruct (collectPrize_counters tm ty data g s) as (_ & _ & E).
      simpl in E. unfold maxStreak in *. lia.
    + lia.
    + destruct (setPlaying_counters playing s) as (E & _). simpl in E. lia.
Qed.

Lemma streak_and_combo_resets_witness :
  streak (fst (apply OpMissedGrab (JS.constant 0.5) state_after_one_win)) = 0 /\
  combo (fst (apply OpMissedGrab (JS.constant 0.5) state_after_one_win)) = 0.
Proof.
  assert (Hr : reachable state_after_one_win).
  { unfold state_after_one_win. apply reachable_apply, reachable_new. }
  destruct (streak_and_combo_resets state_after_one_win OpMissedGrab
              (JS.constant 0.5) Hr) as (H & _).
  apply H. reflexivity.
Defined.

(** After one win at time 1000 the combo is 1 and stays 1: at time
    7000, more than the timeout after the last win, the reachable
    state still has combo 1. *)
Lemma combo_not_cleared_by_timeout :
  reachable state_after_one_win /\
  7000 - lastWinTime state_after_one_win > comboTimeout /\
  combo state_after_one_win <> 0.
Proof.
  split; [| split].
  - unfold state_after_one_win. apply reachable_apply, reachable_new.
  - reflexivity.
  - discriminate.
Qed.

End Progression.

(** ** Overlap resolution *)

Section Overlaps.
Local Open Scope nat_scope.
Import PrizeGenerator.

Lemma checkOverlap_false_apart (p1 p2 : Prize) :
  checkOverlap p1 p2 = false -> apart p1 p2.
Proof.
  unfold checkOverlap, apart. intros H.
  apply andb_false_iff in H. destruct H as [H | H]; [left | right];
    now apply Qlt_bool_false_iff in H.
Qed.

(** Once [hasOverlap] is set it stays set. *)
Lemma visit_keeps_flag (i j : nat) (st : PassState) :
  hasOverlap st = true -> hasOverlap (visit i j st) = true.
Proof.
  destruct st as [[ps b] g]. unfold hasOverlap. simpl. intros ->.
  destruct (ps !! i), (ps !! j); try reflexivity.
  destruct (checkOverlap _ _); reflexivity.
Qed.

Lemma inner_keeps_flag (n i j : nat) (st : PassState) :
  hasOverlap st = true -> hasOverlap (inner i j n st) = true.
Proof.
  revert j st. induction n as [| n IH]; intros j st H; simpl; [exact H |].
  apply IH. now apply visit_keeps_flag.
Qed.

Lemma outer_keeps_flag (n len i : nat) (st : PassState) :
  hasOverlap st = true -> hasOverlap (outer len i n st) = true.
Proof.
  revert i st. induction n as [| n IH]; intros i st H; simpl; [exact H |].
  apply IH. now apply inner_keeps_flag.
Qed.

(** A visit that leaves the flag unset has found no overlap and has
    changed nothing. *)
Lemma visit_clean (i j : nat) (ps : list Prize) (g : JS.RNG) :
  hasOverlap (visit i j (ps, false, g)) = false ->
  visit i j (ps, false, g) = (ps, false, g) /\
  forall p1 p2, ps !! i = Some p1 -> ps !! j = Some p2 -> checkOverlap p1 p2 = false.
Proof.
  unfold visit.
  destruct (ps !! i) as [p1 |]; [| intros _; split; [reflexivity | discriminate]].
  destruct (ps !! j) as [p2 |]; [| intros _; split; [reflexivity | discriminate]].
  destruct (checkOverlap p1 p2) eqn:E.
  - destruct (getRandomPosition (size p2) g). discriminate.
  - intros _. split; [reflexivity |]. now intros ? ? [= <-] [= <-].
Qed.

Lemma inner_clean (n i j : nat) (ps : list Prize) (g : JS.RNG) :
  hasOverlap (inner i j n (ps, false, g)) = false ->
  inner i j n (ps, false, g) = (ps, false, g) /\
  forall j' p1 p2, j <= j' < j + n ->
    ps !! i = Some p1 -> ps !! j' = Some p2 -> checkOverlap p1 p2 = false.
Proof.
  revert j. induction n as [| n IH]; intros j H; cbn [inner] in *.
  - split; [reflexivity | intros; lia].
  - destruct (hasOverlap (visit i j (ps, false, g))) eqn:F.
    + rewrite inner_keeps_flag in H by exact F. discriminate.
    + destruct (visit_clean i j ps g F) as [E Hv].
      rewrite E in H |- *. destruct (IH (S j) H) as [E' Hi].
      split; [exact E' |]. intros j' p1 p2 Hj H1 H2.
      destruct (Nat.eq_dec j' j) as [-> | Hne].
      * now apply Hv.
      * apply (Hi j' p1 p2); [lia | assumption | assumption].
Qed.

Lemma outer_clean (n len i : nat) (ps : list Prize) (g : JS.RNG) :
  hasOverlap (outer len i n (ps, false, g)) = false ->
  outer len i n (ps, false, g) = (ps, false, g) /\
  forall i' j' p1 p2, i <= i' < i + n -> i' < j' < len ->
    ps !! i' = Some p1 -> ps !! j' = Some p2 -> checkOverlap p1 p2 = false.
Proof.
  revert i. induction n as [| n IH]; intros i H; cbn [outer] in *.
  - split; [reflexivity | intros; lia].
  - destruct (hasOverlap (inner i (S i) (len - S i) (ps, false, g))) eqn:F.
    + rewrite outer_keeps_flag in H by exact F. discriminate.
    + destruct (inner_clean _ _ _ ps g F) as [E Hin].
      rewrite E in H |- *. destruct (IH (S i) H) as [E' Ho].
      split; [exact E' |]. intros i' j' p1 p2 Hi Hj H1 H2.
      destruct (Nat.eq_dec i' i) as [-> | Hne].
      * apply (Hin j' p1 p2); [lia | assumption | assumption].
      * apply (Ho i' j' p1 p2); [lia | lia | assumption | assumption].
Qed.

(** A pass that finds no overlap leaves the array and the random
    source as they were, and the array is free of overlaps. *)
Lemma pass_clean (ps : list Prize) (g : JS.RNG) :
  hasOverlap (pass ps g) = false ->
  pass ps g = (ps, false, g) /\ overlap_free ps.
Proof.
  unfold pass. intros H. destruct (outer_clean _ _ _ ps g H) as [E Ho].
  split; [exact E |]. intros i j p1 p2 Hij H1 H2.
  apply checkOverlap_false_apart.
  apply (Ho i j p1 p2); [| | assumption | assumption].
  - apply lookup_lt_Some in H1. lia.
  - apply lookup_lt_Some in H2. lia.
Qed.

Lemma found_overlap_S (k : nat) (ps : list Prize) (g : JS.RNG) :
  found_overlap (S k) ps g =
  found_overlap k (fst (fst (pass ps g))) (snd (pass ps g)).
Proof.
  unfold found_overlap. simpl. destruct (pass ps g) as [[ps1 b] g1]. reflexivity.
Qed.

Lemma passes_S (k : nat) (ps : list Prize) (g : JS.RNG) :
  passes (S k) ps g = passes k (fst (fst (pass ps g))) (snd (pass ps g)).
Proof. simpl. destruct (pass ps g) as [[ps1 b] g1]. reflexivity. Qed.

(** The loop stops at the first pass that finds no overlap, and not
    later than after [remaining] passes. *)
Lemma loop_first_clean_pass (remaining attempts : nat) (ps : list Prize) (g : JS.RNG) :
  exists k,
    k <= remaining /\
    loop remaining attempts ps g =
      (fst (passes k ps g), attempts + k, snd (passes k ps g)) /\
    (forall i, i < k -> found_overlap i ps g = true) /\
    (k < remaining ->
       found_overlap k ps g = false /\ overlap_free (fst (passes k ps g))).
Proof.
  revert attempts ps g. induction remaining as [| rem IH]; intros attempts ps g.
  - exists 0. simpl. rewrite Nat.add_0_r. repeat split; intros; lia.
  - simpl. destruct (pass ps g) as [[ps1 b] g1] eqn:E. destruct b.
    + destruct (IH (S attempts) ps1 g1) as (k & Hk & Hl & Hbefore & Hclean).
      exists (S k). rewrite passes_S, E. simpl.
      split; [lia |]. split; [rewrite Hl; f_equal; f_equal; lia |]. split.
      * intros [| i] Hi.
        -- unfold found_overlap. simpl. now rewrite E.
        -- rewrite found_overlap_S, E. simpl. apply Hbefore. lia.
      * intros Hlt. rewrite found_overlap_S, E. simpl. apply Hclean. lia.
    + assert (F : hasOverlap (pass ps g) = false) by now rewrite E.
      destruct (pass_clean ps g F) as [E' Hfree].
      rewrite E in E'. injection E' as -> ->.
      exists 0. simpl. rewrite Nat.add_0_r.
      split; [lia |]. split; [reflexivity |]. split; [intros; lia |].
      intros _. split; [exact F | exact Hfree].
Qed.

(** C9: when [resolveOverlaps] returns, either every pair of prizes
    is at least [minDistance] (half the sum of the widths plus the
    buffer) apart on one axis, or the attempt count has reached its
    bound of 50.  The loop stops at the first pass that finds no
    overlap: every earlier pass found one, and the result is the
    array as that pass saw it. *)
Theorem resolveOverlaps_overlap_free_or_exhausted (ps : list Prize) (g : JS.RNG) :
  let ps' := fst (fst (resolveOverlaps ps g)) in
  let attempts := snd (fst (resolveOverlaps ps g)) in
  let g' := snd (resolveOverlaps ps g) in
  (overlap_free ps' \/ attempts = maxAttempts) /\
  attempts <= maxAttempts /\ maxAttempts = 50 /\
  (forall k, k < attempts -> found_overlap k ps g = true) /\
  (attempts < maxAttempts -> found_overlap attempts ps g = false) /\
  (ps', g') = passes attempts ps g.
Proof.
  unfold resolveOverlaps.
  destruct (loop_first_clean_pass maxAttempts 0 ps g)
    as (k & Hk & -> & Hbefore & Hclean).
  cbn [fst snd Nat.add].
  split; [| split; [exact Hk | split; [reflexivity | split; [exact Hbefore | split]]]].
  - destruct (Nat.eq_dec k maxAttempts) as [-> | Hne]; [now right |].
    left. apply Hclean. lia.
  - intros Hlt. now apply Hclean.
  - now destruct (passes k ps g).
Qed.

(** Two stacked prizes: the first pass moves the second prize away,
    the second pass finds no overlap, and the loop stops with
    [attempts = 1]. *)
Example resolveOverlaps_stacked :
  snd (fst (resolveOverlaps stacked_prizes alternating)) = 1 /\
  found_overlap 0 stacked_prizes alternating = true /\
  found_overlap 1 stacked_prizes alternating = false.
Proof. repeat split; vm_compute; reflexivity. Qed.

(** The escape hatch: when every draw puts the second prize back onto
    the first, the loop gives up after 50 passes and the overlap
    remains. *)
Example resolveOverlaps_exhausted :
  snd (fst (resolveOverlaps stuck_prizes (JS.constant 0.6))) = 50 /\
  fst (fst (resolveOverlaps stuck_prizes (JS.constant 0.6))) = stuck_result /\
  ~ overlap_free stuck_result.
Proof.
  split; [vm_compute; reflexivity |]. split; [vm_compute; reflexivity |].
  intros H.
  specialize (H 0 1 _ _ (Nat.lt_0_succ 0) eq_refl eq_refl).
  destruct H as [H | H]; vm_compute in H; now apply H.
Qed.

Lemma resolveOverlaps_overlap_free_or_exhausted_witness :
  found_overlap 0 stacked_prizes alternating = true /\
  found_overlap (snd (fst (resolveOverlaps stacked_prizes alternating)))
    stacked_prizes alternating = false.
Proof.
  destruct (resolveOverlaps_overlap_free_or_exhausted stacked_prizes alternating)
    as (_ & _ & _ & Hb & Hc & _).
  split.
  - apply Hb. vm_compute. lia.
  - apply Hc. vm_compute. lia.
Defined.

End Overlaps.

(** ** Drop and emergency stop *)

Section Release.

Lemma update_released (i : nat) (ps : list PrizeGenerator.Prize) :
  released i ps (PrizeStore.update i (PrizeGenerator.set_grabbed false) ps).
Proof.
  unfold released, PrizeStore.update.
  induction ps as [| p ps IH]; simpl; constructor; [| exact IH].
  destruct (Nat.eqb_spec (PrizeGenerator.id p) i) as [E | E]; simpl; repeat split; auto; congruence.
Qed.

(** The model reaches [holding_world]: the grab is accepted in
    [idle_world] and the first timer, the grab attempt, succeeds. *)
Example holding_world_reached :
  grab idle_world = (true, snd (grab idle_world)) /\
  run 1 (snd (grab idle_world)) = holding_world.
Proof. split; reflexivity. Qed.

(** C1: [emergencyStop()] clears [isMoving], [isGrabbing] and
    [isPlaying], hands a held prize back to the prize store (it is no
    longer grabbed, and as collected or uncollected as before), holds
    no prize afterwards, puts the claw at its home position, and
    leaves streak, combo, points, coins and the play count as they
    were.  It does not touch the timers: every callback that was
    pending before the call is pending after it. *)
Theorem emergencyStop_forces_idle (w : World) :
  let w' := emergencyStop w in
  (isMoving (claw w') = false /\ isGrabbing (claw w') = false /\
   GameState.isPlaying (gameState w') = false) /\
  (grabbedPrize (claw w') = None /\
   position (claw w') = homePosition /\
   (forall i, grabbedPrize (claw w) = Some i ->
      released i (PrizeGenerator.prizes (prizeGenerator w)) (PrizeGenerator.prizes (prizeGenerator w'))) /\
   (grabbedPrize (claw w) = None -> prizeGenerator w' = prizeGenerator w)) /\
  (GameState.streak (gameState w') = GameState.streak (gameState w) /\
   GameState.combo (gameState w') = GameState.combo (gameState w) /\
   GameState.points (gameState w') = GameState.points (gameState w) /\
   GameState.coins (gameState w') = GameState.coins (gameState w) /\
   GameState.totalPlays (gameState w') = GameState.totalPlays (gameState w)) /\
  timers w' = timers w.
Proof.
  destruct w as [gs pg c ts t g]. unfold emergencyStop.
  destruct (setPlaying_counters false gs) as (Hs & Hc & _ & Hco & Hp & Htp & Hip).
  destruct c as [pos mv gr held speed el]. destruct held as [i |]; simpl;
    (split; [| split; [| split]]); repeat split; auto; try discriminate.
  intros j [= <-]. apply update_released.
Qed.

Lemma emergencyStop_forces_idle_witness :
  released 1 (PrizeGenerator.prizes (prizeGenerator holding_world))
             (PrizeGenerator.prizes (prizeGenerator (emergencyStop holding_world))).
Proof.
  destruct (emergencyStop_forces_idle holding_world) as (_ & (_ & _ & H & _) & _).
  apply H. reflexivity.
Defined.

(** After the emergency stop in the middle of a grab sequence the
    three callbacks of the sequence are still pending; when they run,
    the last one records a miss: the streak of 3 and the combo of 2
    are reset to 0, and the machine was idle all along. *)
Lemma emergencyStop_keeps_stale_callbacks :
  let w := emergencyStop holding_world in
  timers w = [(1500, AnimateClawUp); (2000, ReturnClaw); (2500, CompleteGrabSequence)] /\
  (exists t cb, In (t, cb) (timers w) /\ grab_sequence_callback cb) /\
  (isGrabbing (claw w) = false /\ GameState.streak (gameState w) = 3 /\
   GameState.combo (gameState w) = 2) /\
  (GameState.streak (gameState (run 3 w)) = 0 /\
   GameState.combo (gameState (run 3 w)) = 0 /\
   (GameState.points (gameState (run 3 w)) == 125)%Q /\
   ~ (GameState.points (gameState (run 3 w)) == GameState.points (gameState w))%Q).
Proof.
  cbv zeta. split; [reflexivity |]. split; [| split; [| split; [| split; [| split]]]].
  - exists 2500, CompleteGrabSequence. split; [simpl; auto |].
    unfold grab_sequence_callback. auto.
  - repeat split.
  - reflexivity.
  - reflexivity.
  - reflexivity.
  - intros H. vm_compute in H. discriminate.
Qed.

(** C6: [drop()] with a prize held returns true, hands the prize back
    to the prize store (no longer grabbed, at its position,
    uncollected as before), holds no prize afterwards and leaves the
    whole progression state, the claw position and the pending
    timers as they were: no points are awarded and nothing is
    recorded by the call.  The grab sequence goes on, and its
    completion, finding no prize held, records the attempt as a
    miss: streak and combo are reset to 0. *)
Theorem drop_releases_then_completion_records_miss (w : World) (i : nat) :
  grabbedPrize (claw w) = Some i ->
  fst (drop w) = true /\
  grabbedPrize (claw (snd (drop w))) = None /\
  released i (PrizeGenerator.prizes (prizeGenerator w)) (PrizeGenerator.prizes (prizeGenerator (snd (drop w)))) /\
  gameState (snd (drop w)) = gameState w /\
  position (claw (snd (drop w))) = position (claw w) /\
  isGrabbing (claw (snd (drop w))) = isGrabbing (claw w) /\
  timers (snd (drop w)) = timers w /\
  GameState.streak (gameState (completeGrabSequence (snd (drop w)))) = 0 /\
  GameState.combo (gameState (completeGrabSequence (snd (drop w)))) = 0.
Proof.
  intros H. unfold drop. rewrite H. simpl.
  repeat split; try apply update_released.
  - unfold completeGrabSequence. simpl.
    destruct (missedGrab_counters (rng w)
                (GameState.setPlaying false (gameState w))) as (E & _).
    destruct (GameState.missedGrab _ _). exact E.
  - unfold completeGrabSequence. simpl.
    destruct (missedGrab_counters (rng w)
                (GameState.setPlaying false (gameState w))) as (_ & E & _).
    destruct (GameState.missedGrab _ _). exact E.
Qed.

Lemma drop_releases_then_completion_records_miss_witness :
  fst (drop holding_world) = true /\
  GameState.streak (gameState (completeGrabSequence (snd (drop holding_world)))) = 0.
Proof.
  assert (H : grabbedPrize (claw holding_world) = Some 1%nat) by reflexivity.
  destruct (drop_releases_then_completion_records_miss holding_world 1 H)
    as (H1 & _ & _ & _ & _ & _ & _ & H2 & _).
  split; [exact H1 | exact H2].
Defined.

(** A prize is held in the middle of a grab sequence, with a streak
    of 3 and a combo of 2.  [drop()] is accepted; when the pending
    callbacks of the sequence have run, the attempt has been counted
    as a miss: streak and combo are 0. *)
Lemma dropped_attempt_counts_as_miss :
  let w := snd (drop holding_world) in
  (isGrabbing (claw holding_world) = true /\
   grabbedPrize (claw holding_world) = Some 1%nat /\
   fst (drop holding_world) = true) /\
  (GameState.streak (gameState w) = 3 /\ GameState.combo (gameState w) = 2) /\
  (GameState.streak (gameState (run 3 w)) = 0 /\
   GameState.combo (gameState (run 3 w)) = 0) /\
  timers (run 3 w) = [(3500, ResetToHome)].
Proof. cbv zeta. repeat split. Qed.

End Release.

(** * Further properties *)

(** ** Rewards *)

Section Rewards.
Import GameState.

(** The base reward drawn for a range lies in the range. *)
Lemma baseReward_bounds (r : Q) (min max : Z) :
  JS.unit_interval r -> min <= max -> min <= baseReward r min max <= max.
Proof.
  intros [H0 H1] Hmm. unfold baseReward.
  set (n := max - min + 1).
  assert (Hn : (0 < inject_Z n)%Q).
  { change 0%Q with (inject_Z 0). rewrite <- Zlt_Qlt. subst n. lia. }
  assert (Hlo : (0 <= r * inject_Z n)%Q) by (apply Qmult_le_0_compat; lra).
  assert (Hhi : (r * inject_Z n < inject_Z n)%Q).
  { assert (0 < (1 - r) * inject_Z n)%Q by (apply Qmult_lt_0_compat; lra). lra. }
  assert (F0 : 0 <= Qfloor (r * inject_Z n)).
  { change 0 with (Qfloor (inject_Z 0)). apply Qfloor_resp_le. exact Hlo. }
  assert (F1 : Qfloor (r * inject_Z n) < n).
  { rewrite Zlt_Qlt. eapply Qle_lt_trans; [apply Qfloor_le | exact Hhi]. }
  subst n. lia.
Qed.

(** What a win does to points, coins and the random source, by prize
    type; [c] is the combo and [k] the streak after the win. *)
Lemma collectPrize_reward (tm : Z) (ty : PrizeType) (data : nat) (g : JS.RNG) (s : t) :
  let s' := fst (collectPrize tm ty data g s) in
  let g' := snd (collectPrize tm ty data g s) in
  let r := JS.draws g (JS.cursor g) in
  match ty with
  | kuromiPlush =>
      coins s' = coins s /\ JS.cursor g' = S (JS.cursor g) /\
      points s' = (points s + inject_Z (baseReward r 50 100)
                              * (1 + inject_Z (combo s' - 1) * 0.1))%Q
  | yellowCoin =>
      coins s' = coins s + 1 /\ g' = g /\
      points s' = (points s + 20)%Q
  | pointToken =>
      coins s' = coins s /\ JS.cursor g' = S (JS.cursor g) /\
      points s' = (points s + inject_Z (baseReward r 10 25)
                              * (1 + inject_Z (streak s' - 1) * 0.05))%Q
  | purpleBall =>
      coins s' = coins s /\ g' = g /\ points s' = points s
  end.
Proof.
  unfold collectPrize.
  destruct ty; destruct (tm - lastWinTime s <? comboTimeout);
    cbn [set_combo set_lastWinTime set_streak streak combo];
    match goal with |- context [maxStreak <? ?x] => destruct (maxStreak <? x) end;
    repeat split.
Qed.

(** X1: a plush win adds at least 50 points, and at most 100 points
    scaled by 10% for each win of the combo beyond the first; it adds
    no coins and draws one number. *)
Theorem plush_reward_bounds (tm : Z) (data : nat) (g : JS.RNG) (s : t) :
  reachable s -> JS.well_formed g ->
  let s' := fst (collectPrize tm kuromiPlush data g s) in
  1 <= combo s' /\
  (points s + 50 <= points s')%Q /\
  (points s' <= points s + 100 * (1 + inject_Z (combo s' - 1) * 0.1))%Q /\
  coins s' = coins s /\
  JS.cursor (snd (collectPrize tm kuromiPlush data g s)) = S (JS.cursor g).
Proof.
  intros Hr Hg. cbv zeta.
  destruct (reachable_counters s Hr) as [_ Hc0].
  destruct (collectPrize_counters tm kuromiPlush data g s) as (Hc & _ & _).
  pose proof (collectPrize_reward tm kuromiPlush data g s) as (Hco & Hcur & Hp).
  cbv zeta in Hc, Hco, Hcur, Hp.
  assert (Hc1 : 1 <= combo (fst (collectPrize tm kuromiPlush data g s))).
  { rewrite Hc. destruct (tm - lastWinTime s <? comboTimeout); lia. }
  destruct (baseReward_bounds (JS.draws g (JS.cursor g)) 50 100 (Hg _)) as [Hb0 Hb1]; [lia |].
  rewrite Hp.
  set (b := inject_Z (baseReward (JS.draws g (JS.cursor g)) 50 100)) in *.
  set (c := inject_Z (combo (fst (collectPrize tm kuromiPlush data g s)) - 1)).
  assert (Hb0' : (50 <= b)%Q) by (subst b; change 50%Q with (inject_Z 50); now rewrite <- Zle_Qle).
  assert (Hb1' : (b <= 100)%Q) by (subst b; change 100%Q with (inject_Z 100); now rewrite <- Zle_Qle).
  assert (Hc' : (0 <= c)%Q).
  { subst c. change 0%Q with (inject_Z 0). rewrite <- Zle_Qle. lia. }
  assert (0 <= b * c)%Q by (apply Qmult_le_0_compat; lra).
  assert (0 <= (100 - b) * c)%Q by (apply Qmult_le_0_compat; lra).
  split; [exact Hc1 |]. split; [lra |]. split; [lra |]. split; [exact Hco | exact Hcur].
Qed.

Lemma plush_reward_bounds_witness :
  (points new + 50 <= points (fst (collectPrize 1000 kuromiPlush 1 (JS.constant 0.5) new)))%Q.
Proof.
  assert (Hg : JS.well_formed (JS.constant 0.5)).
  { intros n. unfold JS.unit_interval. simpl. lra. }
  destruct (plush_reward_bounds 1000 1 (JS.constant 0.5) new reachable_new Hg)
    as (_ & H & _).
  exact H.
Defined.

(** X2: a token win adds between 10 and 36.25 points (at most 25
    points scaled by 5% for each of at most 9 earlier wins of the
    streak); it adds no coins and draws one number. *)
Theorem token_reward_bounds (tm : Z) (data : nat) (g : JS.RNG) (s : t) :
  reachable s -> JS.well_formed g ->
  let s' := fst (collectPrize tm pointToken data g s) in
  (points s + 10 <= points s')%Q /\
  (points s' <= points s + 36.25)%Q /\
  coins s' = coins s /\
  JS.cursor (snd (collectPrize tm pointToken data g s)) = S (JS.cursor g).
Proof.
  intros Hr Hg. cbv zeta.
  destruct (reachable_counters s Hr) as [[Hs0 Hs1] _].
  destruct (collectPrize_counters tm pointToken data g s) as (_ & _ & Hs).
  pose proof (collectPrize_reward tm pointToken data g s) as (Hco & Hcur & Hp).
  cbv zeta in Hs, Hco, Hcur, Hp.
  destruct (baseReward_bounds (JS.draws g (JS.cursor g)) 10 25 (Hg _)) as [Hb0 Hb1]; [lia |].
  rewrite Hp.
  set (b := inject_Z (baseReward (JS.draws g (JS.cursor g)) 10 25)) in *.
  set (k := inject_Z (streak (fst (collectPrize tm pointToken data g s)) - 1)).
  assert (Hb0' : (10 <= b)%Q) by (subst b; change 10%Q with (inject_Z 10); now rewrite <- Zle_Qle).
  assert (Hb1' : (b <= 25)%Q) by (subst b; change 25%Q with (inject_Z 25); now rewrite <- Zle_Qle).
  assert (Hk0 : (0 <= k)%Q).
  { subst k. change 0%Q with (inject_Z 0). rewrite <- Zle_Qle. unfold maxStreak in *. lia. }
  assert (Hk1 : (k <= 9)%Q).
  { subst k. change 9%Q with (inject_Z 9). rewrite <- Zle_Qle. unfold maxStreak in *. lia. }
  assert (0 <= b * k)%Q by (apply Qmult_le_0_compat; lra).
  assert (0 <= (25 - b) * k)%Q by (apply Qmult_le_0_compat; lra).
  split; [lra |]. split; [lra |]. split; [exact Hco | exact Hcur].
Qed.

Lemma token_reward_bounds_witness :
  (points (fst (collectPrize 1000 pointToken 1 (JS.constant 0.5) new)) <= points new + 36.25)%Q.
Proof.
  assert (Hg : JS.well_formed (JS.constant 0.5)).
  { intros n. unfold JS.unit_interval. simpl. lra. }
  destruct (token_reward_bounds 1000 1 (JS.constant 0.5) new reachable_new Hg)
    as (_ & H & _).
  exact H.
Defined.

(** X3: a coin win adds exactly one coin and exactly 20 points, whatever
    the streak and the combo, and draws no number; a purple ball, for
    which there is no entry in [pointValues] and no case in
    [processPrizeReward], adds neither points nor coins and draws no
    number, yet counts for the streak, the combo and the collection
    like any win. *)
Theorem coin_and_ball_rewards (tm : Z) (data : nat) (g : JS.RNG) (s : t) :
  (let s' := fst (collectPrize tm yellowCoin data g s) in
   coins s' = coins s + 1 /\ points s' = (points s + 20)%Q /\
   snd (collectPrize tm yellowCoin data g s) = g) /\
  (let s' := fst (collectPrize tm purpleBall data g s) in
   coins s' = coins s /\ points s' = points s /\
   snd (collectPrize tm purpleBall data g s) = g /\
   streak s' = Z.min (streak s + 1) maxStreak /\
   combo s' = (if tm - lastWinTime s <? comboTimeout then combo s + 1 else 1) /\
   prizes s' = prizes s ++ [mkCollected purpleBall data tm (combo s')]).
Proof.
  split; cbv zeta.
  - pose proof (collectPrize_reward tm yellowCoin data g s) as (Hco & Hg & Hp).
    cbv zeta in Hco, Hg, Hp. auto.
  - pose proof (collectPrize_reward tm purpleBall data g s) as (Hco & Hg & Hp).
    destruct (collectPrize_counters tm purpleBall data g s) as (Hc & _ & Hs).
    cbv zeta in Hco, Hg, Hp, Hc, Hs.
    split; [exact Hco |]. split; [exact Hp |]. split; [exact Hg |].
    split; [exact Hs |]. split; [exact Hc |].
    unfold collectPrize.
    destruct (tm - lastWinTime s <? comboTimeout);
      cbn [set_combo set_lastWinTime set_streak streak combo];
      match goal with |- context [maxStreak <? ?x] => destruct (maxStreak <? x) end;
      reflexivity.
Qed.

End Rewards.

(** ** The record of wins *)

Section Collection.
Import GameState.

Lemma collectPrize_prizes (tm : Z) (ty : PrizeType) (data : nat) (g : JS.RNG) (s : t) :
  let s' := fst (collectPrize tm ty data g s) in
  prizes s' = prizes s ++ [mkCollected ty data tm (combo s')].
Proof.
  unfold collectPrize.
  destruct ty; destruct (tm - lastWinTime s <? comboTimeout);
    cbn [set_combo set_lastWinTime set_streak streak combo];
    match goal with |- context [maxStreak <? ?x] => destruct (maxStreak <? x) end;
    reflexivity.
Qed.

Lemma lastCollected_app (s : t) (l : list Collected) (e : Collected) :
  prizes s = l ++ [e] -> lastCollected s = Some e.
Proof.
  intros H. unfold lastCollected. rewrite H, List.map_app. simpl.
  apply List.last_last.
Qed.

Lemma lastCollected_In (s : t) (e : Collected) :
  lastCollected s = Some e -> In e (prizes s).
Proof.
  unfold lastCollected. generalize (prizes s). intros l.
  induction l as [| a l IH]; simpl; [discriminate |].
  destruct l as [| b l]; simpl in *.
  - intros [= <-]. now left.
  - intros H. right. now apply IH.
Qed.

(** The consistency of the record only depends on the collection and
    the three counters. *)
Lemma collection_consistent_ext (s s' : t) :
  prizes s' = prizes s -> lastWinTime s' = lastWinTime s ->
  combo s' = combo s -> streak s' = streak s ->
  collection_consistent s -> collection_consistent s'.
Proof.
  unfold collection_consistent, lastCollected. intros -> -> -> ->. auto.
Qed.

(** What the operations other than a win, a miss and the reset leave
    alone. *)
Lemma apply_other_keeps (op : Op) (g : JS.RNG) (s : t) :
  (forall tm ty data, op <> OpCollectPrize tm ty data) ->
  op <> OpMissedGrab -> op <> OpReset ->
  let s' := fst (apply op g s) in
  prizes s' = prizes s /\ lastWinTime s' = lastWinTime s /\
  combo s' = combo s /\ streak s' = streak s.
Proof.
  intros Hw Hm Hr.
  destruct op as [amount | | amount | tm ty data | | x y | playing |]; simpl; auto.
  - unfold spendCoin. destruct (coins s <=? 0); simpl; auto.
  - now specialize (Hw tm ty data).
  - congruence.
  - unfold setPlaying. simpl. destruct (playing && negb (gameStarted s)); simpl; auto.
  - congruence.
Qed.

Lemma reachable_collection (s : t) : reachable s -> collection_consistent s.
Proof.
  induction 1 as [| s op g Hr IH].
  - unfold collection_consistent, lastCollected. simpl. repeat split; auto; lia.
  - destruct op as [amount | | amount | tm ty data | | x y | playing |];
      try (apply (collection_consistent_ext s); [.. | exact IH];
           apply apply_other_keeps; intros; discriminate).
    + (* a win *)
      pose proof (collectPrize_prizes tm ty data g s) as Hp.
      destruct (collectPrize_counters tm ty data g s) as (Hc & Hl & Hs).
      cbv zeta in Hp, Hc, Hl, Hs. simpl.
      destruct IH as (Hall & _ & Hst & Hco).
      assert (Hc1 : 1 <= combo (fst (collectPrize tm ty data g s)) <=
                    Z.of_nat (length (prizes s)) + 1).
      { rewrite Hc. destruct (tm - lastWinTime s <? comboTimeout); lia. }
      unfold collection_consistent.
      rewrite (lastCollected_app _ _ _ Hp), Hp, List.length_app. simpl length.
      rewrite Nat2Z.inj_add. simpl Z.of_nat.
      split; [| split; [| split]].
      * apply Forall_app. split.
        -- eapply Forall_impl; [exact Hall |]. simpl. intros e He. lia.
        -- constructor; [simpl; lia | constructor].
      * simpl. split; [exact Hl | now right].
      * rewrite Hs. unfold maxStreak. lia.
      * lia.
    + (* a miss *)
      destruct (missedGrab_counters g s) as (Hs & Hc & Hl & _).
      assert (Hp : prizes (fst (missedGrab g s)) = prizes s).
      { unfold missedGrab. simpl. destruct (JS.Qlt_bool _ _); reflexivity. }
      cbv zeta in Hs, Hc, Hl. simpl.
      destruct IH as (Hall & Hlast & Hst & Hco).
      unfold collection_consistent, lastCollected in *. rewrite Hp, Hs, Hc, Hl.
      split; [exact Hall |]. split; [| split; lia].
      destruct (List.last _ _); destruct Hlast as [Ht _]; auto.
    + (* the reset *)
      unfold collection_consistent, lastCollected. simpl. repeat split; auto; lia.
Qed.

(** X4: in every reachable state the record of wins agrees with the
    counters: each recorded combo is at least 1 and at most the rank
    of its entry; the time of the last win is the timestamp of the
    last entry, or 0 when nothing was won; the combo is 0 or the one
    recorded last; and neither the streak nor the combo exceeds the
    number of prizes won. *)
Theorem collection_agrees_with_counters (s : t) :
  reachable s -> collection_consistent s.
Proof.
  intros Hr. pose proof (reachable_collection s Hr) as H.
  destruct H as (Hall & Hlast & Hst & Hco).
  split; [exact Hall | split; [exact Hlast | split; [exact Hst | exact Hco]]].
Qed.

Lemma collection_agrees_with_counters_witness :
  collection_consistent state_after_one_win.
Proof.
  apply collection_agrees_with_counters.
  unfold state_after_one_win. apply reachable_apply, reachable_new.
Defined.

Lemma maxWithZero_ge (l : list Z) (x : Z) : In x l -> x <= Stats.maxWithZero l.
Proof.
  unfold Stats.maxWithZero. induction l as [| a l IH]; simpl; [intros [] |].
  intros [-> | H]; [lia | specialize (IH H); lia].
Qed.

Lemma maxWithZero_le (l : list Z) (b : Z) :
  0 <= b -> (forall x, In x l -> x <= b) -> 0 <= Stats.maxWithZero l <= b.
Proof.
  unfold Stats.maxWithZero. intros Hb. induction l as [| a l IH]; simpl; intros H; [lia |].
  assert (a <= b) by (apply H; now left).
  assert (0 <= List.fold_right Z.max 0 l <= b) by (apply IH; intros; apply H; now right).
  lia.
Qed.

(** X5: in every reachable state the highest combo reported by
    [getStats()] is at least the current combo and at most the number
    of prizes won, the reported streak is at most that number too, and
    with no prize won all three are 0. *)
Theorem getStats_highestCombo_bounds (s : t) :
  reachable s ->
  let st := Stats.getStats s in
  combo s <= Stats.highestCombo st /\
  Stats.highestCombo st <= Z.of_nat (Stats.totalPrizes st) /\
  0 <= Stats.currentStreak st <= Z.of_nat (Stats.totalPrizes st) /\
  (Stats.totalPrizes st = 0%nat ->
     Stats.highestCombo st = 0 /\ combo s = 0 /\ Stats.currentStreak st = 0).
Proof.
  intros Hr. destruct (reachable_collection s Hr) as (Hall & Hlast & Hst & Hco).
  unfold Stats.getStats. cbn [Stats.highestCombo Stats.totalPrizes Stats.currentStreak].
  rewrite List.Forall_forall in Hall.
  assert (Hup : 0 <= Stats.maxWithZero (List.map Stats.comboOrOne (prizes s))
                  <= Z.of_nat (length (prizes s))).
  { apply maxWithZero_le; [lia |]. intros x Hx.
    apply List.in_map_iff in Hx. destruct Hx as (e & <- & He).
    specialize (Hall e He). unfold Stats.comboOrOne.
    destruct (c_combo e =? 0) eqn:E; lia. }
  split; [| split; [lia | split; [exact Hst |]]].
  - destruct (lastCollected s) as [e |] eqn:El.
    + destruct Hlast as [_ [H0 | He]]; [lia |].
      apply lastCollected_In in El. rewrite He.
      apply maxWithZero_ge. apply List.in_map_iff. exists e. split; [| exact El].
      unfold Stats.comboOrOne. specialize (Hall e El).
      destruct (c_combo e =? 0) eqn:E; [apply Z.eqb_eq in E; lia | reflexivity].
    + destruct Hlast as [_ H0]. lia.
  - intros Hz. rewrite Hz in *. simpl in *. lia.
Qed.

Lemma getStats_highestCombo_bounds_witness :
  combo state_after_one_win <= Stats.highestCombo (Stats.getStats state_after_one_win).
Proof.
  assert (Hr : reachable state_after_one_win).
  { unfold state_after_one_win. apply reachable_apply, reachable_new. }
  destruct (getStats_highestCombo_bounds state_after_one_win Hr) as (H & _).
  exact H.
Defined.

End Collection.

(** ** The success rate *)

Section SuccessRate.
Local Open Scope Q_scope.
Import GameState.

Lemma streakBonus_bounds (k : Z) :
  (0 <= k)%Z -> 0 <= JS.Math_min (inject_Z k * 0.02) 0.1 <= 0.1.
Proof.
  intros Hk.
  assert (0 <= inject_Z k) by (change 0 with (inject_Z 0); now rewrite <- Zle_Qle).
  destruct (Math_min_cases (inject_Z k * 0.02) 0.1) as [[? ->] | [? ->]]; lra.
Qed.

(** X6: with a streak that is not negative, the clamp of
    [getSuccessRate] never acts for a prize type of the table: the
    rate is the base rate plus the streak bonus minus the low-coin
    penalty, and it lies between 0.6 and 0.9. *)
Theorem getSuccessRate_clamp_inactive (ty : PrizeType) (baseRate : Q) (s : t) :
  (0 <= streak s)%Z -> successRates ty = Some baseRate ->
  exists q, getSuccessRate ty s = JS.Num q /\
            q == unclampedRate baseRate s /\ 0.6 <= q /\ q <= 0.9.
Proof.
  intros Hs Hb. unfold getSuccessRate. rewrite Hb.
  eexists. split; [reflexivity |].
  pose proof (streakBonus_bounds (streak s) Hs) as [Hb0 Hb1].
  fold (unclampedRate baseRate s).
  assert (Hr : 0.6 <= unclampedRate baseRate s <= 0.9).
  { unfold unclampedRate.
    destruct ty; simpl in Hb; try discriminate; injection Hb as <-;
      destruct (coins s <? 2)%Z; lra. }
  fold (clamp 0.3 0.9 (unclampedRate baseRate s)).
  destruct (clamp_cases 0.3 0.9 (unclampedRate baseRate s)) as [[? E] | [(? & ? & E) | [? E]]];
    try lra; rewrite E; repeat split; lra.
Qed.

Lemma getSuccessRate_clamp_inactive_witness :
  exists q, getSuccessRate pointToken new = JS.Num q /\
            q == unclampedRate 0.75 new /\ 0.6 <= q /\ q <= 0.9.
Proof.
  apply (getSuccessRate_clamp_inactive pointToken 0.75 new); [simpl; lia | reflexivity].
Defined.

Lemma clamp_monotone (lo hi v1 v2 : Q) :
  lo <= hi -> v1 <= v2 -> clamp lo hi v1 <= clamp lo hi v2.
Proof.
  intros Hlh Hv.
  destruct (clamp_cases lo hi v1 Hlh) as [[? E1] | [(? & ? & E1) | [? E1]]];
    destruct (clamp_cases lo hi v2 Hlh) as [[? E2] | [(? & ? & E2) | [? E2]]];
    rewrite E1, E2; lra.
Qed.

(** X7: more coins and a longer streak never lower the success rate of
    a prize type of the table. *)
Theorem getSuccessRate_monotone (ty : PrizeType) (s1 s2 : t) :
  ty <> purpleBall ->
  (coins s1 <= coins s2)%Z -> (streak s1 <= streak s2)%Z ->
  rate_le (getSuccessRate ty s1) (getSuccessRate ty s2).
Proof.
  intros Hty Hc Hs. unfold getSuccessRate.
  assert (Hk : inject_Z (streak s1) <= inject_Z (streak s2)) by now rewrite <- Zle_Qle.
  assert (Hbonus : JS.Math_min (inject_Z (streak s1) * 0.02) 0.1 <=
                   JS.Math_min (inject_Z (streak s2) * 0.02) 0.1).
  { destruct (Math_min_cases (inject_Z (streak s1) * 0.02) 0.1) as [[? ->] | [? ->]];
      destruct (Math_min_cases (inject_Z (streak s2) * 0.02) 0.1) as [[? ->] | [? ->]]; lra. }
  assert (Hpen : (if (coins s2 <? 2)%Z then 0.05 else 0) <=
                 (if (coins s1 <? 2)%Z then 0.05 else 0)).
  { destruct (coins s2 <? 2)%Z eqn:E2; destruct (coins s1 <? 2)%Z eqn:E1; try lra.
    apply Z.ltb_lt in E2. apply Z.ltb_ge in E1. lia. }
  destruct ty; simpl; try congruence;
    apply (clamp_monotone 0.3 0.9); lra.
Qed.

Lemma getSuccessRate_monotone_witness :
  rate_le (getSuccessRate pointToken new) (getSuccessRate pointToken state_after_one_win).
Proof.
  apply getSuccessRate_monotone; [discriminate | simpl; lia | simpl; lia].
Defined.

End SuccessRate.

(** ** The controller: one sequence at a time *)

Section Controller.
Local Open Scope Q_scope.

(** Inside the machine [updateClawPosition] stores the position as it
    is. *)
Lemma updateClawPosition_inside (x y : Q) (s : GameState.t) :
  10 <= x -> x < 90 -> 10 <= y -> y < 90 ->
  GameState.clawPosition (GameState.updateClawPosition x y s) = mkPosition x y.
Proof.
  intros Hx0 Hx1 Hy0 Hy1. unfold GameState.updateClawPosition. simpl.
  unfold JS.Math_min, JS.Math_max.
  assert (Ex : Qle_bool 90 x = false).
  { destruct (Qle_bool 90 x) eqn:E; [apply Qle_bool_iff in E; lra | reflexivity]. }
  assert (Ey : Qle_bool 90 y = false).
  { destruct (Qle_bool 90 y) eqn:E; [apply Qle_bool_iff in E; lra | reflexivity]. }
  rewrite Ex, Ey.
  assert (Fx : Qle_bool 10 x = true) by now apply Qle_bool_iff.
  assert (Fy : Qle_bool 10 y = true) by now apply Qle_bool_iff.
  now rewrite Fx, Fy.
Qed.

Lemma newPosition_within (direction : string) (p : Position) :
  within_boundary p -> within_boundary (newPosition direction p).
Proof.
  intros Hb. destruct (newPosition_clamped direction p Hb) as (Hx & Hy & _).
  unfold within_boundary. rewrite Hx, Hy.
  split; apply clamp_within; unfold minX, maxX, minY, maxY; lra.
Qed.

Lemma move_accepted_inv (direction : string) (w w' : World) :
  move direction w = (true, w') ->
  busy w = false /\ w' = animateMovement (newPosition direction (position (claw w))) w.
Proof.
  unfold move. destruct (busy w); [discriminate |].
  destruct (samePosition _ _); [discriminate |]. intros [= <-]. auto.
Qed.

(** X8: an accepted move sets [isMoving], stores the new position in
    the game state as well, costs no coin, and schedules the end of
    the movement [moveSpeed] milliseconds later; until that callback
    runs every further [move] and [grab] is rejected without any
    change, and when it runs the claw is free again at the new
    position. *)
Theorem accepted_move_locks_controls (direction : string) (w w' : World) :
  within_boundary (position (claw w)) ->
  move direction w = (true, w') ->
  isMoving (claw w') = true /\
  timers w' = timers w ++ [((now w + Qfloor (moveSpeed (claw w)))%Z, MoveDone)] /\
  GameState.clawPosition (gameState w') = position (claw w') /\
  GameState.coins (gameState w') = GameState.coins (gameState w) /\
  (forall d, move d w' = (false, w')) /\
  grab w' = (false, w') /\
  isMoving (claw (fire MoveDone w')) = false /\
  position (claw (fire MoveDone w')) = position (claw w').
Proof.
  intros Hb Hm. destruct (move_accepted_inv _ _ _ Hm) as [Hbusy ->].
  pose proof (newPosition_within direction _ Hb) as [[Hx0 Hx1] [Hy0 Hy1]].
  unfold minX, maxX, minY, maxY in *.
  set (p := newPosition direction (position (claw w))) in *.
  split; [reflexivity |]. split; [reflexivity |]. split.
  - change (GameState.clawPosition
              (GameState.updateClawPosition (px p) (py p) (gameState w)) = p).
    rewrite updateClawPosition_inside by lra. now destruct p.
  - split; [reflexivity |]. split; [| split; [| split; reflexivity]].
    + intros d. unfold move, busy. reflexivity.
    + unfold grab, busy. reflexivity.
Qed.

Lemma accepted_move_locks_controls_witness :
  grab (snd (move "left" idle_world)) = (false, snd (move "left" idle_world)).
Proof.
  assert (Hb : within_boundary (position (claw idle_world))).
  { unfold within_boundary, minX, maxX, minY, maxY. simpl. lra. }
  destruct (accepted_move_locks_controls "left" idle_world
              (snd (move "left" idle_world)) Hb eq_refl)
    as (_ & _ & _ & _ & _ & H & _).
  exact H.
Defined.

Lemma grab_accepted_inv (w w' : World) :
  grab w = (true, w') ->
  busy w = false /\
  w' = executeGrabSequence
         (on_gameState (GameState.setPlaying true)
            (on_claw (set_isGrabbing true)
               (set_gameState (snd (GameState.spendCoin (gameState w))) w))).
Proof.
  unfold grab. destruct (busy w); [discriminate |].
  destruct (GameState.spendCoin (gameState w)) as [ok gs].
  destruct ok; simpl; [| discriminate]. intros [= <-]. auto.
Qed.

(** X9: an accepted grab sets [isGrabbing] and [isPlaying], leaves the
    claw and the prizes where they are, and schedules the four phases
    of the sequence at 40%, 60%, 80% and 100% of its 2500 ms; from
    then on every [move] and every further [grab] is rejected without
    any change, while [drop()] with nothing held is accepted and
    changes nothing. *)
Theorem accepted_grab_schedules_sequence (w w' : World) :
  grab w = (true, w') ->
  (isGrabbing (claw w') = true /\
   GameState.isPlaying (gameState w') = true /\
   GameState.gameStarted (gameState w') = true) /\
  timers w' = timers w ++
    [((now w + 1000)%Z, AttemptGrab); ((now w + 1500)%Z, AnimateClawUp);
     ((now w + 2000)%Z, ReturnClaw); ((now w + 2500)%Z, CompleteGrabSequence)] /\
  (position (claw w') = position (claw w) /\
   grabbedPrize (claw w') = grabbedPrize (claw w) /\
   prizeGenerator w' = prizeGenerator w) /\
  (forall d, move d w' = (false, w')) /\
  grab w' = (false, w') /\
  (grabbedPrize (claw w) = None -> drop w' = (true, w')).
Proof.
  intros Hg. destruct (grab_accepted_inv _ _ Hg) as [Hbusy ->].
  split; [| split; [| split; [| split; [| split]]]].
  - simpl. unfold GameState.setPlaying. simpl.
    destruct (GameState.gameStarted (snd (GameState.spendCoin (gameState w)))) eqn:E;
      simpl; rewrite ?E; auto.
  - unfold executeGrabSequence, setTimeout. simpl.
    rewrite <- !List.app_assoc. reflexivity.
  - repeat split.
  - intros d. unfold move, busy. simpl. now rewrite orb_true_r.
  - unfold grab, busy. simpl. now rewrite orb_true_r.
  - intros Hn. unfold drop. simpl. rewrite Hn. reflexivity.
Qed.

Lemma accepted_grab_schedules_sequence_witness :
  drop (snd (grab idle_world)) = (true, snd (grab idle_world)).
Proof.
  destruct (accepted_grab_schedules_sequence idle_world (snd (grab idle_world)) eq_refl)
    as (_ & _ & _ & _ & _ & H).
  apply H. reflexivity.
Defined.

(** X10: [grab()] is accepted exactly when the claw is neither moving
    nor grabbing and the player can play.  Whoever can play has a
    coin, so the coin is always spent once the guard is passed: the
    refusal of [spendCoin] is never what rejects a grab.  A rejected
    grab changes nothing. *)
Theorem grab_accepted_exactly_when_idle (w : World) :
  fst (grab w) = negb (busy w) /\
  (GameState.canPlay (gameState w) = true ->
     fst (GameState.spendCoin (gameState w)) = true) /\
  (fst (grab w) = false -> snd (grab w) = w).
Proof.
  assert (Hcan : GameState.canPlay (gameState w) = true ->
                 fst (GameState.spendCoin (gameState w)) = true).
  { unfold GameState.canPlay, GameState.spendCoin. intros H.
    apply andb_true_iff in H. destruct H as [H _]. apply Z.ltb_lt in H.
    destruct (GameState.coins (gameState w) <=? 0)%Z eqn:E; [| reflexivity].
    apply Z.leb_le in E. lia. }
  split; [| split; [exact Hcan |]].
  - unfold grab. destruct (busy w) eqn:Hb; [reflexivity |].
    assert (Hc : GameState.canPlay (gameState w) = true).
    { unfold busy in Hb. apply orb_false_iff in Hb. destruct Hb as [_ Hb].
      now apply negb_false_iff in Hb. }
    specialize (Hcan Hc).
    destruct (GameState.spendCoin (gameState w)) as [ok gs]. simpl in Hcan.
    subst ok. reflexivity.
  - unfold grab. destruct (busy w) eqn:Hb; [reflexivity |].
    assert (Hc : GameState.canPlay (gameState w) = true).
    { unfold busy in Hb. apply orb_false_iff in Hb. destruct Hb as [_ Hb].
      now apply negb_false_iff in Hb. }
    specialize (Hcan Hc).
    destruct (GameState.spendCoin (gameState w)) as [ok gs]. simpl in Hcan.
    subst ok. discriminate.
Qed.

Lemma grab_accepted_exactly_when_idle_witness :
  fst (GameState.spendCoin (gameState idle_world)) = true /\
  snd (grab broke_world) = broke_world.
Proof.
  destruct (grab_accepted_exactly_when_idle idle_world) as (_ & H1 & _).
  destruct (grab_accepted_exactly_when_idle broke_world) as (_ & _ & H2).
  split; [apply H1 | apply H2]; reflexivity.
Defined.

(** X11: when the sequence completes with a prize held, the controller
    only lets go of its reference: it clears [isGrabbing] and
    [isPlaying] and schedules the return home one second later, but
    it records no win (streak, combo, points, coins and the collection
    stay as they are, no number is drawn) and leaves the prize store
    untouched.  Afterwards the controls are free again unless the
    coins have run out or a movement is still under way. *)
Theorem completeGrabSequence_with_prize (w : World) (i : nat) :
  grabbedPrize (claw w) = Some i ->
  let w' := completeGrabSequence w in
  (isGrabbing (claw w') = false /\ grabbedPrize (claw w') = None /\
   GameState.isPlaying (gameState w') = false) /\
  timers w' = timers w ++ [((now w + 1000)%Z, ResetToHome)] /\
  (GameState.streak (gameState w') = GameState.streak (gameState w) /\
   GameState.combo (gameState w') = GameState.combo (gameState w) /\
   GameState.points (gameState w') = GameState.points (gameState w) /\
   GameState.coins (gameState w') = GameState.coins (gameState w) /\
   GameState.prizes (gameState w') = GameState.prizes (gameState w)) /\
  rng w' = rng w /\ prizeGenerator w' = prizeGenerator w /\
  busy w' = isMoving (claw w) || negb (0 <? GameState.coins (gameState w))%Z.
Proof.
  intros H. unfold completeGrabSequence. simpl. rewrite H. simpl.
  repeat split. unfold busy, GameState.canPlay. simpl.
  now rewrite orb_false_r, andb_true_r.
Qed.

Lemma completeGrabSequence_with_prize_witness :
  GameState.streak (gameState (completeGrabSequence holding_world)) = 3%Z.
Proof.
  destruct (completeGrabSequence_with_prize holding_world 1 eq_refl)
    as (_ & _ & (H & _) & _).
  exact H.
Defined.

Lemma move_keeps_within_boundary (d : string) (w : World) :
  within_boundary (position (claw w)) ->
  within_boundary (position (claw (snd (move d w)))).
Proof.
  intros Hb. unfold move. destruct (busy w); [exact Hb |].
  destruct (samePosition _ _); [exact Hb |]. simpl.
  now apply newPosition_within.
Qed.

(** X12: wherever the claw is, [returnClaw], [resetToHome] and
    [emergencyStop] put it inside the movement boundary, and [move],
    [grab], [drop] and [completeGrabSequence] keep it inside;
    [returnClaw] alone moves the claw without telling the game state,
    whose copy of the position stays as it was. *)
Theorem controller_keeps_claw_within_boundary (w : World) :
  (within_boundary (position (claw (returnClaw w))) /\
   within_boundary (position (claw (resetToHome w))) /\
   within_boundary (position (claw (emergencyStop w)))) /\
  (within_boundary (position (claw w)) ->
     (forall d, within_boundary (position (claw (snd (move d w))))) /\
     within_boundary (position (claw (snd (grab w)))) /\
     within_boundary (position (claw (snd (drop w)))) /\
     within_boundary (position (claw (completeGrabSequence w)))) /\
  (gameState (returnClaw w) = gameState w /\
   GameState.clawPosition (gameState (resetToHome w)) = homePosition).
Proof.
  assert (Hhome : within_boundary homePosition).
  { unfold within_boundary, minX, maxX, minY, maxY. simpl. lra. }
  assert (Hdrop : within_boundary dropZone).
  { unfold within_boundary, minX, maxX, minY, maxY. simpl. lra. }
  split; [| split].
  - split; [| split].
    + unfold returnClaw. destruct (grabbedPrize (claw w)); assumption.
    + exact Hhome.
    + unfold emergencyStop. simpl. destruct (grabbedPrize (claw w)); exact Hhome.
  - intros Hb. split; [| split; [| split]].
    + intros d. now apply move_keeps_within_boundary.
    + unfold grab. destruct (busy w); [exact Hb |].
      destruct (GameState.spendCoin (gameState w)) as [ok gs].
      destruct ok; exact Hb.
    + unfold drop. destruct (grabbedPrize (claw w)); [exact Hb |].
      destruct (negb _); exact Hb.
    + unfold completeGrabSequence. simpl.
      destruct (grabbedPrize (claw w)); [exact Hb |].
      destruct (GameState.missedGrab _ _). exact Hb.
  - split.
    + unfold returnClaw. destruct (grabbedPrize (claw w)); reflexivity.
    + reflexivity.
Qed.

Lemma controller_keeps_claw_within_boundary_witness :
  within_boundary (position (claw (snd (move "forward" idle_world)))).
Proof.
  assert (Hb : within_boundary (position (claw idle_world))).
  { unfold within_boundary, minX, maxX, minY, maxY. simpl. lra. }
  destruct (controller_keeps_claw_within_boundary idle_world) as (_ & H & _).
  destruct (H Hb) as (Hm & _). apply Hm.
Defined.

(** X13: a step to the left that is not cut short by the boundary is
    undone by a step to the right: once the movement callback has
    run, [move('right')] is accepted and the claw is back where it
    was. *)
Theorem move_left_then_right_returns (w : World) :
  busy w = false -> timers w = [] ->
  within_boundary (position (claw w)) ->
  minX + moveStep <= px (position (claw w)) ->
  exists w1 w2 w3,
    move "left" w = (true, w1) /\ step w1 = Some w2 /\ move "right" w2 = (true, w3) /\
    px (position (claw w1)) == px (position (claw w)) - moveStep /\
    px (position (claw w3)) == px (position (claw w)) /\
    py (position (claw w3)) = py (position (claw w)).
Proof.
  intros Hbusy Ht [[Hx0 Hx1] [Hy0 Hy1]] Hroom.
  unfold minX, maxX, minY, maxY, moveStep in *.
  set (x := px (position (claw w))) in *. set (y := py (position (claw w))) in *.
  set (p1 := newPosition "left" (position (claw w))).
  assert (Ex1 : px p1 = x - 8).
  { subst p1. unfold newPosition. simpl. unfold JS.Math_max, minX, moveStep. fold x.
    assert (E : Qle_bool 15 (x - 8) = true) by (apply Qle_bool_iff; lra).
    now rewrite E. }
  assert (Ey1 : py p1 = y) by reflexivity.
  assert (Hs1 : samePosition p1 (position (claw w)) = false).
  { destruct (samePosition p1 (position (claw w))) eqn:E; [| reflexivity].
    apply samePosition_iff in E. destruct E as [E _]. rewrite Ex1 in E. fold x in E. lra. }
  set (w1 := animateMovement p1 w).
  assert (Hm1 : move "left" w = (true, w1)).
  { unfold move. rewrite Hbusy. fold p1. now rewrite Hs1. }
  set (w2 := fire MoveDone
               (set_now (Z.max (now w1) (now w + Qfloor (moveSpeed (claw w))))
                  (set_timers [] w1))).
  assert (Hst : step w1 = Some w2).
  { unfold step. subst w1. unfold animateMovement, setTimeout. simpl. rewrite Ht.
    reflexivity. }
  assert (Hbusy2 : busy w2 = false).
  { unfold busy in *. simpl.
    apply orb_false_iff in Hbusy. destruct Hbusy as [Hb1 Hb2].
    apply orb_false_iff in Hb1. destruct Hb1 as [_ Hg]. rewrite Hg. simpl.
    exact Hb2. }
  set (p3 := newPosition "right" (position (claw w2))).
  assert (Ex3 : px p3 == x).
  { assert (E : px p3 = JS.Math_min 85 (px p1 + 8)) by reflexivity.
    rewrite E, Ex1.
    destruct (Math_min_cases 85 (x - 8 + 8)) as [[? ->] | [? ->]]; lra. }
  assert (Ey3 : py p3 = y) by reflexivity.
  assert (Hs3 : samePosition p3 (position (claw w2)) = false).
  { destruct (samePosition p3 (position (claw w2))) eqn:E; [| reflexivity].
    apply samePosition_iff in E. destruct E as [E _].
    change (px (position (claw w2))) with (px p1) in E. rewrite Ex1, Ex3 in E. lra. }
  exists w1, w2, (animateMovement p3 w2).
  split; [exact Hm1 |]. split; [exact Hst |]. split.
  - unfold move. rewrite Hbusy2. fold p3. now rewrite Hs3.
  - split; [| split].
    + change (px (position (claw w1))) with (px p1). rewrite Ex1. reflexivity.
    + exact Ex3.
    + exact Ey3.
Qed.

Lemma move_left_then_right_returns_witness :
  exists w1 w2 w3,
    move "left" idle_world = (true, w1) /\ step w1 = Some w2 /\
    move "right" w2 = (true, w3) /\
    px (position (claw w1)) == px (position (claw idle_world)) - moveStep /\
    px (position (claw w3)) == px (position (claw idle_world)) /\
    py (position (claw w3)) = py (position (claw idle_world)).
Proof.
  apply move_left_then_right_returns.
  - reflexivity.
  - reflexivity.
  - unfold within_boundary, minX, maxX, minY, maxY. simpl. lra.
  - unfold minX, moveStep. simpl. lra.
Defined.

(** X14: [emergencyStop()] is idempotent: a second call right after the
    first changes nothing. *)
Theorem emergencyStop_idempotent (w : World) :
  emergencyStop (emergencyStop w) = emergencyStop w.
Proof.
  destruct w as [gs pg c ts t g]. destruct c as [pos mv gr held speed el].
  unfold emergencyStop. destruct held as [i |]; simpl;
    unfold GameState.setPlaying; simpl; reflexivity.
Qed.

End Controller.

(** ** Keyboard and auto-play *)

Section Inputs.
Local Open Scope Q_scope.

Lemma lowerAscii_idempotent (c : Ascii.ascii) : lowerAscii (lowerAscii c) = lowerAscii c.
Proof. destruct c as [[] [] [] [] [] [] [] []]; reflexivity. Qed.

Lemma toLowerCase_idempotent (s : string) : toLowerCase (toLowerCase s) = toLowerCase s.
Proof.
  induction s as [| c s IH]; simpl; [reflexivity |].
  now rewrite lowerAscii_idempotent, IH.
Qed.

Lemma move_progress (d : string) (w : World) :
  GameState.coins (gameState (snd (move d w))) = GameState.coins (gameState w) /\
  GameState.streak (gameState (snd (move d w))) = GameState.streak (gameState w) /\
  GameState.combo (gameState (snd (move d w))) = GameState.combo (gameState w).
Proof.
  unfold move. destruct (busy w); [auto |].
  destruct (samePosition _ _); simpl; auto.
Qed.

Lemma grab_progress (w : World) :
  (GameState.coins (gameState w) - 1 <= GameState.coins (gameState (snd (grab w)))
   <= GameState.coins (gameState w))%Z /\
  GameState.streak (gameState (snd (grab w))) = GameState.streak (gameState w) /\
  GameState.combo (gameState (snd (grab w))) = GameState.combo (gameState w).
Proof.
  unfold grab. destruct (busy w); [simpl; split; [lia | auto] |].
  unfold GameState.spendCoin.
  destruct (GameState.coins (gameState w) <=? 0)%Z; simpl; [split; [lia | auto] |].
  unfold GameState.setPlaying. simpl.
  destruct (negb _); simpl; (split; [lia | auto]).
Qed.

(** X15: the keyboard does what the buttons do and nothing else.
    While the claw moves or grabs, every key is ignored, so that [x]
    cannot release a prize during a grab sequence.  Otherwise a key
    acts as [move] in one of the four directions, as [grab] or as
    [drop], or not at all; keys are matched without regard to case;
    the arrow keys act like [a], [d], [w] and [s], up meaning back
    and down meaning forward; space and Enter grab. *)
Theorem handleKeyboard_acts_like_buttons (key : string) (w : World) :
  (isMoving (claw w) = true \/ isGrabbing (claw w) = true ->
     handleKeyboard key w = w) /\
  handleKeyboard (toLowerCase key) w = handleKeyboard key w /\
  (handleKeyboard key w = w \/
   (exists d, is_direction d /\ handleKeyboard key w = snd (move d w)) \/
   handleKeyboard key w = snd (grab w) \/
   handleKeyboard key w = snd (drop w)) /\
  (isMoving (claw w) = false -> isGrabbing (claw w) = false ->
     (handleKeyboard "ArrowLeft" w = snd (move "left" w) /\
      handleKeyboard "A" w = snd (move "left" w)) /\
     (handleKeyboard "ArrowRight" w = snd (move "right" w) /\
      handleKeyboard "d" w = snd (move "right" w)) /\
     (handleKeyboard "ArrowUp" w = snd (move "back" w) /\
      handleKeyboard "w" w = snd (move "back" w)) /\
     (handleKeyboard "ArrowDown" w = snd (move "forward" w) /\
      handleKeyboard "S" w = snd (move "forward" w)) /\
     (handleKeyboard " " w = snd (grab w) /\ handleKeyboard "Enter" w = snd (grab w)) /\
     handleKeyboard "X" w = snd (drop w)).
Proof.
  split; [| split; [| split]].
  - intros H. unfold handleKeyboard.
    destruct H as [-> | ->]; [reflexivity | now rewrite orb_true_r].
  - unfold handleKeyboard. now rewrite toLowerCase_idempotent.
  - unfold handleKeyboard. unfold is_direction.
    destruct (isMoving (claw w) || isGrabbing (claw w)); [now left |].
    repeat match goal with
           | |- context [if ?b then _ else _] => destruct b
           end; eauto 10.
  - intros Hm Hg. unfold handleKeyboard. rewrite Hm, Hg. simpl.
    repeat split.
Qed.

Lemma handleKeyboard_acts_like_buttons_witness :
  handleKeyboard "x" holding_world = holding_world /\
  handleKeyboard "ArrowUp" idle_world = snd (move "back" idle_world).
Proof.
  destruct (handleKeyboard_acts_like_buttons "x" holding_world) as (H1 & _).
  destruct (handleKeyboard_acts_like_buttons "x" idle_world) as (_ & _ & _ & H4).
  split.
  - apply H1. right. reflexivity.
  - destruct (H4 eq_refl eq_refl) as (_ & _ & (H & _) & _). exact H.
Defined.

(** The direction that a draw selects is one of the four. *)
Lemma random_direction (r : Q) :
  JS.unit_interval r ->
  is_direction (List.nth (Z.to_nat (Qfloor (r * 4))) directions ""%string).
Proof.
  intros [H0 H1].
  assert (F0 : (0 <= Qfloor (r * 4))%Z).
  { change 0%Z with (Qfloor 0). apply Qfloor_resp_le. lra. }
  assert (F1 : (Qfloor (r * 4) < 4)%Z).
  { rewrite Zlt_Qlt. change (inject_Z 4) with 4.
    eapply Qle_lt_trans; [apply Qfloor_le |]. lra. }
  unfold is_direction, directions.
  assert (Hc : (Qfloor (r * 4) = 0 \/ Qfloor (r * 4) = 1 \/
                Qfloor (r * 4) = 2 \/ Qfloor (r * 4) = 3)%Z) by lia.
  destruct Hc as [-> | [-> | [-> | ->]]]; simpl; auto.
Qed.

(** X16: one tick of the auto-play does nothing once the duration has
    elapsed (it then stops the interval) and nothing while the player
    cannot play or the claw is busy.  Otherwise it moves in one of the
    four directions, grabs, or sends the claw home: the claw stays
    inside the movement boundary, at most one coin is spent, and
    streak and combo are not touched. *)
Theorem autoPlayTick_safe (elapsed : bool) (w : World) :
  JS.well_formed (rng w) ->
  within_boundary (position (claw w)) ->
  fst (autoPlayTick elapsed w) = elapsed /\
  (elapsed = true \/ busy w = true -> snd (autoPlayTick elapsed w) = w) /\
  within_boundary (position (claw (snd (autoPlayTick elapsed w)))) /\
  (GameState.coins (gameState w) - 1 <=
     GameState.coins (gameState (snd (autoPlayTick elapsed w))) <=
     GameState.coins (gameState w))%Z /\
  GameState.streak (gameState (snd (autoPlayTick elapsed w))) = GameState.streak (gameState w) /\
  GameState.combo (gameState (snd (autoPlayTick elapsed w))) = GameState.combo (gameState w) /\
  (snd (autoPlayTick elapsed w) = w \/
   (exists d g, is_direction d /\
      snd (autoPlayTick elapsed w) = snd (move d (set_rng g w))) \/
   (exists g, snd (autoPlayTick elapsed w) = snd (grab (set_rng g w))) \/
   (exists g, snd (autoPlayTick elapsed w) = resetToHome (set_rng g w))).
Proof.
  intros Hg Hb. unfold autoPlayTick.
  destruct elapsed.
  { simpl. split; [reflexivity | split; [auto | split; [exact Hb | split; [lia |
      split; [reflexivity | split; [reflexivity | now left]]]]]]. }
  assert (Hguard : negb (GameState.canPlay (gameState w)) || isMoving (claw w)
                   || isGrabbing (claw w) = busy w).
  { unfold busy. destruct (isMoving (claw w)), (isGrabbing (claw w)),
      (GameState.canPlay (gameState w)); reflexivity. }
  rewrite Hguard. destruct (busy w) eqn:Hbusy.
  { simpl. split; [reflexivity | split; [auto | split; [exact Hb | split; [lia |
      split; [reflexivity | split; [reflexivity | now left]]]]]]. }
  unfold JS.Math_random.
  destruct (JS.Qlt_bool (JS.draws (rng w) (JS.cursor (rng w))) 0.6).
  - cbn [fst snd].
    match goal with
    | |- context [move ?d ?w2] =>
        pose proof (move_progress d w2) as (Hc & Hs & Hco);
        pose proof (move_keeps_within_boundary d w2 Hb) as Hin;
        assert (Hd : is_direction d) by (apply random_direction, Hg)
    end.
    split; [reflexivity |]. split; [intros [? | ?]; discriminate |].
    split; [exact Hin |]. split; [rewrite Hc; simpl; lia |].
    split; [exact Hs |]. split; [exact Hco |].
    right; left. eexists _, _. split; [exact Hd | reflexivity].
  - destruct (JS.Qlt_bool (JS.draws (rng w) (JS.cursor (rng w))) 0.9); cbn [fst snd].
    + match goal with
      | |- context [grab ?w1] => pose proof (grab_progress w1) as (Hc & Hs & Hco)
      end.
      split; [reflexivity |]. split; [intros [? | ?]; discriminate |].
      split.
      { unfold grab.
        match goal with |- context [busy ?w1] => destruct (busy w1) end; [exact Hb |].
        destruct (GameState.spendCoin _) as [ok gs]. destruct ok; exact Hb. }
      split; [exact Hc |]. split; [exact Hs |]. split; [exact Hco |].
      right; right; left. eexists. reflexivity.
    + split; [reflexivity |]. split; [intros [? | ?]; discriminate |].
      split.
      { unfold within_boundary, minX, maxX, minY, maxY. simpl. lra. }
      split; [simpl; lia |]. split; [reflexivity |]. split; [reflexivity |].
      right; right; right. eexists. reflexivity.
Qed.

Lemma autoPlayTick_safe_witness :
  within_boundary (position (claw (snd (autoPlayTick false idle_world)))).
Proof.
  assert (Hg : JS.well_formed (rng idle_world)).
  { intros n. unfold JS.unit_interval. simpl. lra. }
  assert (Hb : within_boundary (position (claw idle_world))).
  { unfold within_boundary, minX, maxX, minY, maxY. simpl. lra. }
  destruct (autoPlayTick_safe false idle_world Hg Hb) as (_ & _ & H & _).
  exact H.
Defined.

End Inputs.

(** ** The prize field *)

Section PrizeField.
Local Open Scope Q_scope.
Import PrizeGenerator.

Lemma minDistance_symmetric (p1 p2 : Prize) : minDistance p1 p2 == minDistance p2 p1.
Proof. unfold minDistance. field. Qed.

Lemma Qabs_swap (a b : Q) : Qabs (a - b) == Qabs (b - a).
Proof. rewrite (Qabs_Qminus a b). reflexivity. Qed.

Lemma Qlt_bool_compat (a a' b b' : Q) :
  a == a' -> b == b' -> JS.Qlt_bool a b = JS.Qlt_bool a' b'.
Proof. intros Ha Hb. unfold JS.Qlt_bool. now rewrite Ha, Hb. Qed.

(** X17: [checkOverlap] does not depend on the order of its two
    prizes, and a prize whose width is not negative overlaps itself;
    so a pass of [resolveOverlaps] looks at each unordered pair once,
    and never at a prize paired with itself. *)
Theorem checkOverlap_symmetric (p1 p2 : Prize) :
  checkOverlap p1 p2 = checkOverlap p2 p1 /\
  (0 <= width (size p1) -> checkOverlap p1 p1 = true).
Proof.
  split.
  - unfold checkOverlap. f_equal; apply Qlt_bool_compat;
      auto using Qabs_swap, minDistance_symmetric.
  - intros Hw. unfold checkOverlap, minDistance, buffer.
    assert (E : forall a, Qabs (a - a) == 0).
    { intros a. assert (H : a - a == 0) by ring. rewrite H. reflexivity. }
    assert (F : (width (size p1) + width (size p1)) / 2 == width (size p1)) by field.
    apply andb_true_iff. split; apply Qlt_bool_iff; rewrite E, F; lra.
Qed.

Lemma checkOverlap_symmetric_witness : checkOverlap far_prize far_prize = true.
Proof.
  destruct (checkOverlap_symmetric far_prize near_prize) as [_ H].
  apply H. simpl. lra.
Defined.

Lemma moved_only_refl (p : Prize) : moved_only p p.
Proof. now destruct p. Qed.

Lemma moved_only_set_position (p0 p : Prize) (pos : Position) :
  moved_only p0 p -> moved_only p0 (set_position pos p).
Proof. unfold moved_only. destruct p. simpl. auto. Qed.

Lemma only_moved_refl (ps : list Prize) : only_moved ps ps.
Proof.
  split; [| reflexivity]. induction ps; constructor; auto using moved_only_refl.
Qed.

Lemma visit_only_moved (ps0 : list Prize) (i j : nat) (st : PassState) :
  (1 <= j)%nat -> only_moved ps0 (fst (fst st)) ->
  only_moved ps0 (fst (fst (visit i j st))).
Proof.
  destruct st as [[ps b] g]. unfold visit. cbn [fst snd]. intros Hj [Hall H0].
  destruct (ps !! i) as [p1 |]; [| now split].
  destruct (ps !! j) as [p2 |] eqn:E2; [| now split].
  destruct (checkOverlap p1 p2); [| now split].
  destruct (getRandomPosition (size p2) g) as [pos g']. cbn [fst].
  destruct (Forall2_lookup_r _ _ _ _ _ Hall E2) as (p0 & E0 & Hm).
  split.
  - rewrite <- (list_insert_id ps0 j p0 E0).
    apply Forall2_insert; [exact Hall |]. now apply moved_only_set_position.
  - rewrite list_lookup_insert_ne by lia. exact H0.
Qed.

Lemma inner_only_moved (ps0 : list Prize) (n i j : nat) (st : PassState) :
  (1 <= j)%nat -> only_moved ps0 (fst (fst st)) ->
  only_moved ps0 (fst (fst (inner i j n st))).
Proof.
  revert j st. induction n as [| n IH]; intros j st Hj H; cbn [inner]; [exact H |].
  apply IH; [lia |]. now apply visit_only_moved.
Qed.

Lemma outer_only_moved (ps0 : list Prize) (n len i : nat) (st : PassState) :
  only_moved ps0 (fst (fst st)) ->
  only_moved ps0 (fst (fst (outer len i n st))).
Proof.
  revert i st. induction n as [| n IH]; intros i st H; cbn [outer]; [exact H |].
  apply IH. apply inner_only_moved; [lia | exact H].
Qed.

Lemma loop_only_moved (ps0 : list Prize) (remaining attempts : nat)
    (ps : list Prize) (g : JS.RNG) :
  only_moved ps0 ps ->
  only_moved ps0 (fst (fst (loop remaining attempts ps g))).
Proof.
  revert attempts ps g.
  induction remaining as [| rem IH]; intros attempts ps g H; cbn [loop]; [exact H |].
  assert (Hp : only_moved ps0 (fst (fst (pass ps g)))) by (apply outer_only_moved; exact H).
  destruct (pass ps g) as [[ps' b] g']. destruct b; [now apply IH | exact Hp].
Qed.

Lemma Forall2_moved_only_maps (l k : list Prize) :
  Forall2 moved_only l k ->
  List.map id k = List.map id l /\ List.map type k = List.map type l.
Proof.
  induction 1 as [| p q l k Hm _ [IH1 IH2]]; simpl; [auto |].
  unfold moved_only in Hm. rewrite IH1, IH2. rewrite <- Hm. auto.
Qed.

(** X18: [resolveOverlaps] only moves prizes: the array keeps its
    length and its order, every prize keeps its id, type, size and
    flags, and the first prize of the array is never moved. *)
Theorem resolveOverlaps_only_moves (ps : list Prize) (g : JS.RNG) :
  let ps' := fst (fst (resolveOverlaps ps g)) in
  length ps' = length ps /\
  Forall2 moved_only ps ps' /\
  List.map id ps' = List.map id ps /\
  List.map type ps' = List.map type ps /\
  ps' !! 0%nat = ps !! 0%nat.
Proof.
  cbv zeta. unfold resolveOverlaps.
  destruct (loop_only_moved ps maxAttempts 0 ps g (only_moved_refl ps)) as [Hall H0].
  set (ps' := fst (fst (loop maxAttempts 0 ps g))) in *.
  split; [symmetry; eapply Forall2_length; exact Hall |].
  destruct (Forall2_moved_only_maps _ _ Hall) as [Hid Hty].
  split; [exact Hall |]. split; [exact Hid |]. split; [exact Hty | exact H0].
Qed.

Lemma Forall2_moved_only_fresh (l k : list Prize) :
  Forall2 moved_only l k -> Forall fresh_prize l -> Forall fresh_prize k.
Proof.
  induction 1 as [| p q l k Hm _ IH]; intros Hf; [constructor |].
  apply Forall_cons in Hf. destruct Hf as [Hp Hl].
  constructor; [| exact (IH Hl)].
  unfold moved_only in Hm. unfold fresh_prize in *. rewrite <- Hm in Hp. exact Hp.
Qed.

Lemma resolveOverlaps_keeps (ps : list Prize) (g : JS.RNG) :
  Forall2 moved_only ps (fst (fst (resolveOverlaps ps g))) /\
  List.map id (fst (fst (resolveOverlaps ps g))) = List.map id ps /\
  List.map type (fst (fst (resolveOverlaps ps g))) = List.map type ps.
Proof.
  unfold resolveOverlaps.
  destruct (loop_only_moved ps maxAttempts 0 ps g (only_moved_refl ps)) as [Hall _].
  split; [exact Hall |]. now apply Forall2_moved_only_maps.
Qed.

Lemma createMany_appended (ty : PrizeType) (n : nat) (st : t) (g : JS.RNG) :
  appended (List.seq (S (prizeIdCounter st)) n) (List.repeat ty n)
           (prizes st) (prizes (fst (createMany ty n st g))) /\
  prizeIdCounter (fst (createMany ty n st g)) = (prizeIdCounter st + n)%nat.
Proof.
  revert st g. induction n as [| n IH]; intros st g; cbn [createMany].
  - split; [| simpl; lia]. exists []. rewrite List.app_nil_r. repeat split; constructor.
  - destruct (createPrize ty (prizeTypes ty) (prizeIdCounter st) g) as [[p c] g'] eqn:E.
    unfold createPrize in E. destruct (getRandomPosition _ g) as [pos g1].
    simpl in E. injection E as <- <- <-.
    match goal with |- context [createMany ty n ?st1 ?g1] =>
      destruct (IH st1 g1) as [(added & Ha & Hid & Hty & Hf) Hc] end.
    cbn [prizes prizeIdCounter] in *.
    split; [| rewrite Hc; lia].
    eexists (_ :: added). rewrite Ha, <- List.app_assoc. split; [reflexivity |].
    split; [simpl; now rewrite Hid |]. split; [simpl; now rewrite Hty |].
    constructor; [repeat split | exact Hf].
Qed.

(** X19: [generatePrizes] throws the old array away and leaves 36
    prizes: 8 plushes, 6 coins, 12 tokens and 10 purple balls, in
    this order, with the ids that follow the counter one by one, none
    grabbed or collected, each with the size, rarity and stacking of
    its type; the counter advances by 36. *)
Theorem generatePrizes_inventory (st : t) (g : JS.RNG) :
  let st' := fst (generatePrizes st g) in
  length (prizes st') = 36%nat /\
  List.map id (prizes st') = List.seq (S (prizeIdCounter st)) 36 /\
  List.map type (prizes st') =
    List.repeat kuromiPlush 8 ++ List.repeat yellowCoin 6 ++
    List.repeat pointToken 12 ++ List.repeat purpleBall 10 /\
  Forall fresh_prize (prizes st') /\
  prizeIdCounter st' = (prizeIdCounter st + 36)%nat.
Proof.
  cbv zeta. unfold generatePrizes, prizeTypeKeys. cbn [createAll].
  set (st0 := mk [] (prizeIdCounter st)).
  destruct (createMany_appended kuromiPlush (count (prizeTypes kuromiPlush)) st0 g)
    as [(a1 & Ha1 & Hi1 & Ht1 & Hf1) Hc1].
  destruct (createMany kuromiPlush _ st0 g) as [st1 g1]. cbn [fst] in *.
  destruct (createMany_appended yellowCoin (count (prizeTypes yellowCoin)) st1 g1)
    as [(a2 & Ha2 & Hi2 & Ht2 & Hf2) Hc2].
  destruct (createMany yellowCoin _ st1 g1) as [st2 g2]. cbn [fst] in *.
  destruct (createMany_appended pointToken (count (prizeTypes pointToken)) st2 g2)
    as [(a3 & Ha3 & Hi3 & Ht3 & Hf3) Hc3].
  destruct (createMany pointToken _ st2 g2) as [st3 g3]. cbn [fst] in *.
  destruct (createMany_appended purpleBall (count (prizeTypes purpleBall)) st3 g3)
    as [(a4 & Ha4 & Hi4 & Ht4 & Hf4) Hc4].
  destruct (createMany purpleBall _ st3 g3) as [st4 g4]. cbn [fst] in *.
  pose proof (resolveOverlaps_keeps (prizes st4) g4) as (Hall & Hid & Hty).
  destruct (resolveOverlaps (prizes st4) g4) as [[ps a] g5]. cbn [fst snd prizes prizeIdCounter] in *.
  subst st0. cbn [prizes prizeIdCounter] in *.
  assert (Hids : List.map id (prizes st4) = List.seq (S (prizeIdCounter st)) 36).
  { rewrite Ha4, Ha3, Ha2, Ha1. rewrite !List.map_app, Hi1, Hi2, Hi3, Hi4.
    rewrite Hc3, Hc2, Hc1. cbn [count prizeTypes].
    change 36%nat with (8 + (6 + (12 + 10)))%nat. rewrite !List.seq_app.
    rewrite <- !List.app_assoc. cbn [List.app].
    repeat (f_equal; try lia). }
  assert (Htys : List.map type (prizes st4) =
                 List.repeat kuromiPlush 8 ++ List.repeat yellowCoin 6 ++
                 List.repeat pointToken 12 ++ List.repeat purpleBall 10).
  { rewrite Ha4, Ha3, Ha2, Ha1. rewrite !List.map_app, Ht1, Ht2, Ht3, Ht4. reflexivity. }
  assert (Hfresh : Forall fresh_prize (prizes st4)).
  { rewrite Ha4, Ha3, Ha2, Ha1. simpl. repeat (apply Forall_app; split); assumption. }
  split; [| split; [| split; [| split]]].
  - rewrite <- (List.length_map id), Hid, Hids. reflexivity.
  - now rewrite Hid.
  - now rewrite Hty.
  - now apply (Forall2_moved_only_fresh (prizes st4)).
  - rewrite Hc4, Hc3, Hc2, Hc1. simpl. lia.
Qed.

Lemma find_some_ex {A} (f : A -> bool) (l : list A) (x : A) :
  In x l -> f x = true -> exists y, List.find f l = Some y.
Proof.
  induction l as [| a l IH]; simpl; [intros [] |].
  intros [-> | H] Hx.
  - rewrite Hx. eauto.
  - destruct (f a); eauto.
Qed.

(** X20: a negative tolerance finds no prize, and widening the
    tolerance never loses a candidate: where a prize is found within
    a tolerance, one is found within every larger tolerance. *)
Theorem getPrizeAtPosition_tolerance (x y tolerance : Q) (ps : list Prize) :
  (tolerance < 0 -> getPrizeAtPosition x y tolerance ps = None) /\
  (forall wider p, tolerance <= wider ->
     getPrizeAtPosition x y tolerance ps = Some p ->
     exists p', getPrizeAtPosition x y wider ps = Some p').
Proof.
  unfold getPrizeAtPosition. split.
  - intros Hneg. induction ps as [| a ps IH]; simpl; [reflexivity |].
    assert (E : eligible x y tolerance a = false).
    { destruct (eligible x y tolerance a) eqn:E; [| reflexivity].
      apply eligible_iff in E. destruct E as (_ & _ & H & _). lra. }
    now rewrite E.
  - intros wider p Hw Hf. apply List.find_some in Hf. destruct Hf as [Hin He].
    apply eligible_iff in He. destruct He as (Hc & Hg & H0 & Hd).
    apply (find_some_ex _ _ p Hin). apply eligible_iff.
    repeat split; auto; [lra |].
    assert (tolerance * tolerance <= wider * wider) by nra. lra.
Qed.

Lemma getPrizeAtPosition_tolerance_witness :
  exists p', getPrizeAtPosition 50 50 25 [far_prize; near_prize] = Some p'.
Proof.
  destruct (getPrizeAtPosition_tolerance 50 50 15 [far_prize; near_prize]) as [_ H].
  apply (H 25 far_prize); [lra | reflexivity].
Defined.

End PrizeField.

(** ** The main loop *)

Section MainLoop.
Local Open Scope Z_scope.
Import KuromiClawMachine.




(** X22: after one speed boost the timer that it set restores the
    move speed that it found.  A second boost that starts before that
    timer has run finds the boosted speed and later restores that: when
    both timers have run, the move speed is 0.7 times what it was
    before the first boost, and nothing is left to restore it. *)
Theorem speed_boost_restores_what_it_found (w : World) :
  timers w = [] ->
  (let w1 := triggerComboSpecialEffect w in
   moveSpeed (claw w1) = (moveSpeed (claw w) * 0.7)%Q /\
   timers w1 = [(now w + 10000, RestoreSpeed (moveSpeed (claw w)))] /\
   moveSpeed (claw (run 1 w1)) = moveSpeed (claw w) /\
   timers (run 1 w1) = []) /\
  (forall t, now w <= t < now w + 10000 ->
   let w2 := triggerComboSpecialEffect (set_now t (triggerComboSpecialEffect w)) in
   moveSpeed (claw w2) = (moveSpeed (claw w) * 0.7 * 0.7)%Q /\
   moveSpeed (claw (run 2 w2)) = (moveSpeed (claw w) * 0.7)%Q /\
   timers (run 2 w2) = []).
Proof.
  intros Ht. split.
  - cbv zeta. unfold triggerComboSpecialEffect, setTimeout. simpl. rewrite Ht. simpl.
    repeat split.
  - intros t [Hle Hlt]. cbv zeta. unfold triggerComboSpecialEffect, setTimeout.
    change (Qfloor 10000) with 10000. simpl.
    rewrite Ht. simpl. split; [reflexivity |].
    unfold step. simpl.
    assert (E : (now w + 10000 <=? t + 10000) = true) by (apply Z.leb_le; lia).
    rewrite E. simpl. split; reflexivity.
Qed.

Lemma speed_boost_restores_what_it_found_witness :
  moveSpeed (claw (run 1 (triggerComboSpecialEffect idle_world))) = moveSpeed (claw idle_world) /\
  moveSpeed (claw (run 2 (triggerComboSpecialEffect
                           (set_now 3000 (triggerComboSpecialEffect idle_world))))) =
    (moveSpeed (claw idle_world) * 0.7)%Q.
Proof.
  destruct (speed_boost_restores_what_it_found idle_world eq_refl) as [H1 H2].
  split.
  - destruct H1 as (_ & _ & H & _). exact H.
  - assert (Hle : now idle_world <= 3000 < now idle_world + 10000) by (simpl; lia).
    destruct (H2 3000 Hle) as (_ & H & _). exact H.
Defined.

End MainLoop.

(** ** Sound: volumes and mute *)

Section Sound.
Local Open Scope Q_scope.
Import SoundManager.

Lemma unit_clamp_range (v : Q) : unit_range (unit_clamp v).
Proof. unfold unit_range, unit_clamp. apply clamp_between. lra. Qed.

Lemma unit_clamp_inside (v : Q) : unit_range v -> unit_clamp v == v.
Proof.
  intros [H0 H1]. unfold unit_clamp. fold (clamp 0 1 v).
  destruct (clamp_cases 0 1 v) as [[? E] | [(? & ? & E) | [? E]]]; try lra.
Qed.

Lemma volumes_in_range_intro (s : t) :
  unit_range (masterVolume s) -> unit_range (sfxVolume s) ->
  unit_range (musicVolume s) ->
  (forall v, masterGain s = Some v -> unit_range v) ->
  (forall v, ambient s = Some v -> unit_range v) ->
  volumes_in_range s.
Proof. unfold volumes_in_range. auto. Qed.

(** X23: every volume and gain of the sound manager stays between 0
    and 1: the constructor sets them so, and the three volume
    setters, the mute toggle and the start and stop of the ambient
    loop keep them so, whatever value a setter is given.  A value
    between 0 and 1 is stored as it is. *)
Theorem volumes_stay_in_range (s : t) (volume : Q) :
  (forall hasAudioContext, volumes_in_range (new hasAudioContext)) /\
  (volumes_in_range s ->
     volumes_in_range (setMasterVolume volume s) /\
     volumes_in_range (setSFXVolume volume s) /\
     volumes_in_range (setMusicVolume volume s) /\
     volumes_in_range (snd (toggleMute s)) /\
     volumes_in_range (playAmbientSound s) /\
     volumes_in_range (stopAmbientSound s)) /\
  (unit_range volume ->
     masterVolume (setMasterVolume volume s) == volume /\
     sfxVolume (setSFXVolume volume s) == volume /\
     musicVolume (setMusicVolume volume s) == volume).
Proof.
  split; [| split].
  - intros []; apply volumes_in_range_intro; simpl;
      try (unfold unit_range; lra);
      intros v0 E; try discriminate; injection E as <-; unfold unit_range; lra.
  - intros (Hm & Hs & Hmu & Hg & Ha).
    pose proof (unit_clamp_range volume) as Hc.
    assert (H01 : unit_range 0) by (unfold unit_range; lra).
    assert (Hopt : forall (o : option Q) (x : Q), unit_range x ->
              forall v, match o with Some _ => Some x | None => None end = Some v ->
                        unit_range v).
    { intros [o |] x Hx v; [intros [= <-]; exact Hx | discriminate]. }
    assert (Hnone : forall v : Q, @None Q = Some v -> unit_range v) by discriminate.
    split; [| split; [| split; [| split; [| split]]]].
    + apply volumes_in_range_intro; simpl; eauto.
    + apply volumes_in_range_intro; simpl; eauto.
    + apply volumes_in_range_intro; simpl; eauto.
    + unfold toggleMute. destruct (negb (isMuted s)); cbn [snd];
        apply volumes_in_range_intro; simpl; eauto.
    + unfold playAmbientSound.
      destruct (ambient s) eqn:Ea;
        [apply volumes_in_range_intro; eauto; now rewrite Ea |].
      destruct (masterGain s) eqn:Eg.
      * apply volumes_in_range_intro; simpl; eauto. intros v [= <-]. exact Hmu.
      * apply volumes_in_range_intro; eauto; rewrite ?Ea, ?Eg; eauto.
    + apply volumes_in_range_intro; simpl; eauto.
  - intros Hv. simpl. repeat split; now apply unit_clamp_inside.
Qed.

Lemma volumes_stay_in_range_witness :
  volumes_in_range (setMasterVolume 3 (new true)) /\
  masterVolume (setMasterVolume 0.5 (new true)) == 0.5.
Proof.
  destruct (volumes_stay_in_range (new true) 3) as (Hn & Hk & _).
  destruct (volumes_stay_in_range (new true) 0.5) as (_ & _ & Hv).
  split.
  - destruct (Hk (Hn true)) as (H & _). exact H.
  - assert (Hr : unit_range 0.5) by (unfold unit_range; lra).
    destruct (Hv Hr) as (H & _). exact H.
Defined.

(** X24: muting and unmuting again restores the mute flag, the three
    volumes and, where there is a master node, its gain to the master
    volume; but the ambient loop, stopped by the mute, is not started
    again.  And while the sound is muted, setting the master volume
    raises the gain of the master node from 0 to that volume, the
    mute flag staying set. *)
Theorem toggleMute_twice (s : t) :
  isMuted s = false ->
  let muted := snd (toggleMute s) in
  let back := snd (toggleMute muted) in
  (fst (toggleMute s) = true /\ isMuted muted = true /\ ambient muted = None /\
   (forall g, masterGain s = Some g -> masterGain muted = Some 0)) /\
  (fst (toggleMute muted) = false /\ isMuted back = false /\
   masterVolume back = masterVolume s /\ sfxVolume back = sfxVolume s /\
   musicVolume back = musicVolume s /\
   (forall g, masterGain s = Some g -> masterGain back = Some (masterVolume s)) /\
   ambient back = None) /\
  (forall volume g, masterGain s = Some g ->
     isMuted (setMasterVolume volume muted) = true /\
     masterGain (setMasterVolume volume muted) = Some (unit_clamp volume)).
Proof.
  intros Hm. cbv zeta. unfold toggleMute. rewrite Hm. simpl.
  split; [| split].
  - repeat split. intros g ->. reflexivity.
  - repeat split. intros g ->. reflexivity.
  - intros volume g ->. simpl. split; reflexivity.
Qed.

Lemma toggleMute_twice_witness :
  ambient (snd (toggleMute (snd (toggleMute (playAmbientSound (new true)))))) = None /\
  ambient (playAmbientSound (new true)) = Some 0.3.
Proof.
  destruct (toggleMute_twice (playAmbientSound (new true)) eq_refl) as (_ & H & _).
  split; [| reflexivity]. destruct H as (_ & _ & _ & _ & _ & _ & H). exact H.
Defined.

(** X25: a sound is played at the requested volume times the effects
    volume; without a request, or with a request of 0, which counts
    as none, at the volume configured for the sound, and at full
    volume for a sound that is not configured.  With the effects
    volume and the request between 0 and 1 the result is between 0
    and 1.  The volume requested for a combo sound grows with the
    combo level from 0.5 and is 1 from level 5 on. *)
Theorem effectiveVolume_falls_back (soundName : string) (s : t) :
  effectiveVolume soundName (Some 0) s = effectiveVolume soundName None s /\
  (forall v, ~ v == 0 -> effectiveVolume soundName (Some v) s = v * sfxVolume s) /\
  (configVolume soundName = None -> effectiveVolume soundName None s = 1 * sfxVolume s) /\
  (forall c, configVolume soundName = Some c ->
     unit_range c /\ ~ c == 0 /\ effectiveVolume soundName None s = c * sfxVolume s) /\
  (unit_range (sfxVolume s) ->
     forall request, (forall v, request = Some v -> unit_range v) ->
       unit_range (effectiveVolume soundName request s)) /\
  (forall level, (0 <= level)%Z ->
     0.5 <= comboVolume level /\ comboVolume level <= 1 /\
     ((5 <= level)%Z -> comboVolume level == 1)).
Proof.
  assert (Hcfg : forall c, configVolume soundName = Some c -> unit_range c /\ ~ c == 0).
  { intros c. unfold configVolume.
    repeat match goal with
           | |- context [if ?b then _ else _] => destruct b
           end; intros [= <-]; unfold unit_range; repeat split; try lra;
      intros H; vm_compute in H; discriminate. }
  assert (Hnz : forall v, ~ v == 0 -> Qeq_bool v 0 = false).
  { intros v Hv. destruct (Qeq_bool v 0) eqn:E; [| reflexivity].
    apply Qeq_bool_iff in E. contradiction. }
  split; [reflexivity |]. split; [| split; [| split; [| split]]].
  - intros v Hv. unfold effectiveVolume, orElse. now rewrite (Hnz v Hv).
  - intros Hn. unfold effectiveVolume. rewrite Hn. reflexivity.
  - intros c Hc. destruct (Hcfg c Hc) as [Hr Hz].
    split; [exact Hr |]. split; [exact Hz |].
    unfold effectiveVolume. rewrite Hc. simpl. now rewrite (Hnz c Hz).
  - intros [Hs0 Hs1] request Hreq.
    assert (Hbase : unit_range (orElse (configVolume soundName) 1)).
    { destruct (configVolume soundName) as [c |] eqn:Ec; simpl.
      - destruct (Hcfg c eq_refl) as [Hr Hz]. now rewrite (Hnz c Hz).
      - unfold unit_range. lra. }
    assert (Hv : unit_range (orElse request (orElse (configVolume soundName) 1))).
    { destruct request as [v |]; simpl; [| exact Hbase].
      destruct (Qeq_bool v 0); [exact Hbase | now apply Hreq]. }
    unfold effectiveVolume. destruct Hv as [Hv0 Hv1].
    set (a := orElse request _) in *. set (b := sfxVolume s) in *.
    unfold unit_range.
    assert (0 <= a * b) by (apply Qmult_le_0_compat; lra).
    assert (0 <= (1 - a) * b) by (apply Qmult_le_0_compat; lra).
    split; lra.
  - intros level Hl. unfold comboVolume.
    assert (Hq : 0 <= inject_Z level) by (change 0 with (inject_Z 0); now rewrite <- Zle_Qle).
    destruct (Math_min_cases 1.0 (0.5 + inject_Z level * 0.1)) as [[? ->] | [? ->]];
      (split; [lra |]); (split; [lra |]); intros H5.
    + reflexivity.
    + assert (5 <= inject_Z level) by (change 5 with (inject_Z 5); now rewrite <- Zle_Qle).
      lra.
Qed.

Lemma effectiveVolume_falls_back_witness :
  effectiveVolume "fail" None (new true) = 0.7 * sfxVolume (new true) /\
  comboVolume 7 == 1.
Proof.
  destruct (effectiveVolume_falls_back "fail" (new true)) as (_ & _ & _ & Hc & _ & Hl).
  split.
  - destruct (Hc 0.7 eq_refl) as (_ & _ & H). exact H.
  - assert (H0 : (0 <= 7)%Z) by lia. destruct (Hl 7%Z H0) as (_ & _ & H).
    apply H. lia.
Defined.

End Sound.
